(** * ArabicRTLCorrector: a shallow embedding of the content script

    The development follows the class [ArabicRTLCorrector] of the content
    script method by method.  Conventions of the embedding:

    - a JavaScript string holding page text is a list of UTF-16 code units
      ([jsstring]); tag names, attribute names and attribute values, which the
      script only compares with ASCII literals, are [string]s;
    - a JavaScript number is a rational ([Q]); the quotient of two lengths and
      the comparison with the threshold are taken exactly, and where the
      ratio is written on a node, read back and compared within a hundredth,
      the rational is first rounded to the binary64 number the script holds
      ([toDouble]);
    - the DOM is a forest of element identities (the document and the
      detached fragments) together with a store of element records;
    - [WeakSet]/[WeakMap] are a [gset]/[gmap] keyed by element identity;
    - the callbacks handed to [requestAnimationFrame] and [setTimeout] are
      kept in the state as the data their closures capture;
    - [performance.now()] reads a clock that is part of the state.  *)

From Stdlib Require Import ZArith NArith QArith Qround Qabs Qreduction Lia Lqa Bool Ascii String List.
From stdpp Require Import base option list gmap strings pretty.
Import ListNotations.

Local Open Scope list_scope.

(** ** JavaScript strings as UTF-16 code units *)

Definition jsstring := list N.

(** An ASCII literal as a [jsstring]. *)
Definition js (s : string) : jsstring :=
  List.map N_of_ascii (list_ascii_of_string s).

(** The class [\s] of a regular expression, which is also the set that
    [String.prototype.trim] strips: WhiteSpace and LineTerminator. *)
Definition isSpace (c : N) : bool :=
  ((9 <=? c) && (c <=? 13) || (c =? 32) || (c =? 160) || (c =? 0x1680)
   || (0x2000 <=? c) && (c <=? 0x200A) || (c =? 0x2028) || (c =? 0x2029)
   || (c =? 0x202F) || (c =? 0x205F) || (c =? 0x3000) || (c =? 0xFEFF))%N.

(** The class [[0-9]]. *)
Definition isDigit (c : N) : bool := ((48 <=? c) && (c <=? 57))%N.

Fixpoint dropWhile (p : N -> bool) (s : jsstring) : jsstring :=
  match s with
  | [] => []
  | c :: r => if p c then dropWhile p r else s
  end.

(** [text.trim()] *)
Definition trim (s : jsstring) : jsstring :=
  rev (dropWhile isSpace (rev (dropWhile isSpace s))).

(** [text.replace(/\s+/g, empty)]: every maximal run of white space is deleted. *)
Definition removeWhitespace (s : jsstring) : jsstring :=
  List.filter (fun c => negb (isSpace c)) s.

(** Length of the longest prefix whose code units all satisfy [p]
    (a greedy [[...]*]). *)
Fixpoint spanLen (p : N -> bool) (s : jsstring) : nat :=
  match s with
  | [] => 0
  | c :: r => if p c then S (spanLen p r) else 0
  end.

(** Matching a literal at the head of [s]; returns what follows it. *)
Fixpoint stripLiteral (lit s : jsstring) : option jsstring :=
  match lit, s with
  | [], _ => Some s
  | _ :: _, [] => None
  | a :: lit', c :: s' => if (a =? c)%N then stripLiteral lit' s' else None
  end.

(** [[^\s]+] at the head of [s]: the length matched, if at least one. *)
Definition matchNonSpaces (s : jsstring) : option nat :=
  match spanLen (fun c => negb (isSpace c)) s with
  | O => None
  | S k => Some (S k)
  end.

(** First alternative of [ltrPreserveRegex]: [[0-9]+]. *)
Definition matchDigits (s : jsstring) : option nat :=
  match spanLen isDigit s with
  | O => None
  | S k => Some (S k)
  end.

(** Second alternative: [https?:\/\/[^\s]+].  The optional [s] is greedy and
    the matcher backtracks to the empty choice when the rest fails. *)
Definition matchHttp (s : jsstring) : option nat :=
  match stripLiteral (js "http") s with
  | None => None
  | Some r =>
      let tail (consumed : nat) (r' : jsstring) : option nat :=
        match stripLiteral (js "://") r' with
        | None => None
        | Some r'' =>
            match matchNonSpaces r'' with
            | None => None
            | Some k => Some (consumed + 3 + k)%nat
            end
        end in
      match r with
      | 115%N :: r1 =>
          match tail 5%nat r1 with
          | Some k => Some k
          | None => tail 4%nat r
          end
      | _ => tail 4%nat r
      end
  end.

(** Third alternative: [www\.[^\s]+]. *)
Definition matchWww (s : jsstring) : option nat :=
  match stripLiteral (js "www.") s with
  | None => None
  | Some r =>
      match matchNonSpaces r with
      | None => None
      | Some k => Some (4 + k)%nat
      end
  end.

(** [this.ltrPreserveRegex = /[0-9]+|https?:\/\/[^\s]+|www\.[^\s]+/g] at one
    start position: the alternatives are tried in order, the first that
    matches wins; the result is the length of the match. *)
Definition ltrPreserveMatch (s : jsstring) : option nat :=
  match matchDigits s with
  | Some k => Some k
  | None =>
      match matchHttp s with
      | Some k => Some k
      | None => matchWww s
      end
  end.

(** [text.replace(this.ltrPreserveRegex, empty)]: scan from the left; at a
    position where the expression matches, the match is dropped and the scan
    resumes after it; elsewhere the code unit is kept.  [skip] counts the code
    units of the current match still to drop. *)
Fixpoint removeLtrFrom (skip : nat) (s : jsstring) : jsstring :=
  match s with
  | [] => []
  | c :: r =>
      match skip with
      | S k => removeLtrFrom k r
      | O =>
          match ltrPreserveMatch s with
          | Some (S k) => removeLtrFrom k r
          | _ => c :: removeLtrFrom 0 r
          end
      end
  end.

Definition removeLtrPreserve (s : jsstring) : jsstring := removeLtrFrom 0 s.

Definition isHighSurrogate (c : N) : bool := ((0xD800 <=? c) && (c <=? 0xDBFF))%N.
Definition isLowSurrogate (c : N) : bool := ((0xDC00 <=? c) && (c <=? 0xDFFF))%N.

(** The code point of a surrogate pair. *)
Definition codePoint (hi lo : N) : N :=
  ((hi - 0xD800) * 0x400 + (lo - 0xDC00) + 0x10000)%N.

(** [this.arabicRegex], the class of the code units in U+0600..U+06FF,
    U+0750..U+077F, U+08A0..U+08FF, U+FB50..U+FDFF and U+FE70..U+FEFF; the
    expression has no [u] flag, so it matches single code units. *)
Definition isArabic (c : N) : bool :=
  ((0x0600 <=? c) && (c <=? 0x06FF) || (0x0750 <=? c) && (c <=? 0x077F)
   || (0x08A0 <=? c) && (c <=? 0x08FF) || (0xFB50 <=? c) && (c <=? 0xFDFF)
   || (0xFE70 <=? c) && (c <=? 0xFEFF))%N.

(** A letter table that agrees with the Unicode general category L on the
    code points used by the examples of this file: the Basic Latin letters and
    the letters U+0620..U+064A and U+0671..U+06D3 of the Arabic block. *)
Definition sampleLetter (cp : N) : bool :=
  ((65 <=? cp) && (cp <=? 90) || (97 <=? cp) && (cp <=? 122)
   || (0x0620 <=? cp) && (cp <=? 0x064A) || (0x0671 <=? cp) && (cp <=? 0x06D3))%N.

Section Classifier.

(** The Unicode property [\p{L}] is a table of the JavaScript engine, not of
    the script: it is a parameter, a predicate on code points. *)
Variable isLetter : N -> bool.

(** [text.replace(/[^\p{L}]/gu, empty)]: with the [u] flag the text is read by
    code points (a well-formed surrogate pair is one code point, a lone
    surrogate is a code point of its own); the code points that are not
    letters are deleted. *)
Fixpoint keepLetters (s : jsstring) : jsstring :=
  match s with
  | [] => []
  | c :: t =>
      match t with
      | lo :: r =>
          if isHighSurrogate c && isLowSurrogate lo then
            if isLetter (codePoint c lo) then c :: lo :: keepLetters r
            else keepLetters r
          else
            if isLetter c then c :: keepLetters t else keepLetters t
      | [] => if isLetter c then [c] else []
      end
  end.

(** [cleanText] of [calculateArabicRatio]. *)
Definition cleanText (text : jsstring) : jsstring :=
  keepLetters (removeLtrPreserve (removeWhitespace text)).

(** [cleanText.match(this.arabicRegex) || []] has one entry per code unit
    of the class. *)
Definition arabicMatches (s : jsstring) : jsstring := List.filter isArabic s.

(** [calculateArabicRatio(text)] *)
Definition calculateArabicRatio (text : jsstring) : Q :=
  match text with
  | [] => 0
  | _ :: _ =>
      if (length (trim text) =? 0)%nat then 0
      else
        let clean := cleanText text in
        match length clean with
        | O => 0
        | S n => Z.of_nat (length (arabicMatches clean)) # Pos.of_succ_nat n
        end
  end.

End Classifier.

(** ** JavaScript values of the configuration *)

Inductive Value :=
  | VUndefined
  | VBool (b : bool)
  | VNum (q : Q).

(** ToBoolean *)
Definition truthy (v : Value) : bool :=
  match v with
  | VUndefined => false
  | VBool b => b
  | VNum q => negb (Qeq_bool q 0%Q)
  end.

(** ToNumber; [None] is NaN. *)
Definition toNumber (v : Value) : option Q :=
  match v with
  | VUndefined => None
  | VBool b => Some (if b then 1%Q else 0%Q)
  | VNum q => Some q
  end.

(** [v || d] *)
Definition orElse (v d : Value) : Value := if truthy v then v else d.

(** [v !== false] *)
Definition notFalse (v : Value) : Value :=
  match v with
  | VBool false => VBool false
  | _ => VBool true
  end.

(** A property read [o.k] of an object held as a map: a missing key reads
    [undefined]. *)
Definition prop (o : gmap string Value) (k : string) : Value :=
  default VUndefined (o !! k).

Definition Qltb (a b : Q) : bool := negb (Qle_bool b a).

(** [x < v] and [x >= v] for a number [x] and a value [v]; a comparison
    with NaN is false. *)
Definition ltValue (x : Q) (v : Value) : bool :=
  match toNumber v with
  | Some t => Qltb x t
  | None => false
  end.

Definition geValue (x : Q) (v : Value) : bool :=
  match toNumber v with
  | Some t => Qle_bool t x
  | None => false
  end.

(** ** Binary64

    The value of a double is a rational, and the double the script holds for
    a real number is the nearest one, the one with an even significand when
    two are as near (IEEE 754, round to nearest, ties to even).  The
    significand has 53 bits and the exponent of its last bit is at least
    -1074; numbers of magnitude 2^1024 and more are beyond the largest
    double and are dealt with where they can arise ([nearestNumber]). *)

(** [2^e] for an integer [e] of either sign. *)
Definition pow2 (e : Z) : Q :=
  if (0 <=? e)%Z then inject_Z (2 ^ e) else 1 # Z.to_pos (2 ^ (- e)).

(** The integer nearest to [y], the even one of the two when [y] is half way. *)
Definition roundHalfEven (y : Q) : Z :=
  let f := Qfloor y in
  match (y - inject_Z f ?= 1 # 2)%Q with
  | Lt => f
  | Gt => (f + 1)%Z
  | Eq => if Z.even f then f else (f + 1)%Z
  end.

(** The exponent of the last bit of the significand of a positive [x]: the
    [e] with [2^52 <= x / 2^e < 2^53], and -1074 for the subnormal numbers.
    The difference of the binary logarithms of numerator and denominator is
    the binary logarithm of [x] or one more. *)
Definition binaryExponent (x : Q) : Z :=
  let e0 := (Z.log2 (Qnum x) - Z.log2 (Zpos (Qden x)) - 52)%Z in
  let y := (x / pow2 e0)%Q in
  let e1 :=
    if Qle_bool (inject_Z (2 ^ 53)) y then (e0 + 1)%Z
    else if Qle_bool (inject_Z (2 ^ 52)) y then e0
    else (e0 - 1)%Z in
  Z.max e1 (-1074).

Definition nearestDouble (x : Q) : Q :=
  let e := binaryExponent x in
  (inject_Z (roundHalfEven (x / pow2 e)) * pow2 e)%Q.

(** The double nearest to [x]. *)
Definition toDouble (x : Q) : Q :=
  let x := Qred x in
  match Qnum x with
  | Z0 => 0
  | Zpos _ => nearestDouble x
  | Zneg _ => - nearestDouble (- x)
  end%Q.

(** A bound of the rounding error on numbers between 0 and 1. *)
Definition unitError : Q := 1 # 2 ^ 52.

(** ** Numbers as attribute text: [toFixed(2)] and [parseFloat] *)

Definition digitChar (d : Z) : ascii := ascii_of_N (48 + Z.to_N d).

(** The digits of [n] hundredths: the integer part, a point, two decimals. *)
Definition fixedDigits (n : Z) : string :=
  (pretty (Z.to_N (n / 100)) +:+ "." +:+
   String (digitChar ((n mod 100) / 10))
     (String (digitChar (n mod 10)) EmptyString))%string.

(** [x.toFixed(2)] for the number [x] that the script holds, the double
    nearest to the rational: the integer [n] nearest to a hundred times the
    value of that double (the larger one when two are as near), written with
    two decimals; a negative [x] is written as its opposite after a minus
    sign.  (Below 10^21, where [toFixed] does not switch to the exponent
    notation.) *)
Definition toFixed2 (x : Q) : string :=
  let d := toDouble x in
  let n := Qfloor (Qabs d * 100 + (1 # 2))%Q in
  if Qltb d 0%Q then ("-" +:+ fixedDigits n)%string else fixedDigits n.

(** The decimal number that [toFixed2] writes for a ratio. *)
Definition round2 (x : Q) : Q := Qfloor (toDouble x * 100 + (1 # 2))%Q # 100.

Inductive Number :=
  | NaN
  | Infinite (negative : bool)
  | Finite (q : Q).

Definition isSpaceChar (a : ascii) : bool := isSpace (N_of_ascii a).
Definition isDigitChar (a : ascii) : bool := isDigit (N_of_ascii a).

(** A run of decimal digits: its value, its length and what follows. *)
Fixpoint readDigits (acc : Z) (cnt : nat) (s : list ascii) : Z * nat * list ascii :=
  match s with
  | [] => (acc, cnt, [])
  | c :: r =>
      if isDigitChar c
      then readDigits (acc * 10 + (Z.of_N (N_of_ascii c) - 48)) (S cnt) r
      else (acc, cnt, s)
  end.

Fixpoint dropSpaces (s : list ascii) : list ascii :=
  match s with
  | [] => []
  | c :: r => if isSpaceChar c then dropSpaces r else s
  end.

Fixpoint startsWith (lit s : list ascii) : bool :=
  match lit, s with
  | [], _ => true
  | _ :: _, [] => false
  | a :: lit', c :: s' => Ascii.eqb a c && startsWith lit' s'
  end.

(** The exponent part of a decimal literal, [0] when there is none. *)
Definition readExponent (s : list ascii) : Z :=
  match s with
  | c :: r =>
      if Ascii.eqb c "e" || Ascii.eqb c "E" then
        let '(neg, r') :=
          match r with
          | "-"%char :: r' => (true, r')
          | "+"%char :: r' => (false, r')
          | _ => (false, r)
          end in
        let '(e, n, _) := readDigits 0 0 r' in
        match n with
        | O => 0
        | S _ => if neg then - e else e
        end
      else 0
  | [] => 0
  end%Z.

(** The number the script holds for a decimal literal: the nearest double,
    or an infinity when that lies beyond the largest double. *)
Definition nearestNumber (x : Q) : Number :=
  let d := toDouble x in
  if Qle_bool (inject_Z (2 ^ 1024)) (Qabs d) then Infinite (Qltb d 0)
  else Finite d.

(** [parseFloat(s)]: leading white space is skipped and the longest prefix
    that is a decimal literal is read. *)
Definition parseFloat (s : string) : Number :=
  let cs := dropSpaces (list_ascii_of_string s) in
  let '(neg, cs) :=
    match cs with
    | "-"%char :: r => (true, r)
    | "+"%char :: r => (false, r)
    | _ => (false, cs)
    end in
  if startsWith (list_ascii_of_string "Infinity") cs then Infinite neg
  else
    let '(ip, ni, r1) := readDigits 0 0 cs in
    let '(fp, nf, r2) :=
      match r1 with
      | "."%char :: r => readDigits 0 0 r
      | _ => (0%Z, O, r1)
      end in
    match (ni + nf)%nat with
    | O => NaN
    | S _ =>
        let mant := (inject_Z (ip * 10 ^ Z.of_nat nf + fp) / inject_Z (10 ^ Z.of_nat nf))%Q in
        let v := (mant * Qpower 10 (readExponent r2))%Q in
        nearestNumber (if neg then - v else v)%Q
    end.

(** [Math.abs(parseFloat(existingRatio) - arabicRatio) < 0.01], on doubles:
    [arabicRatio] and the literal are the doubles nearest to the ratio and to
    a hundredth, and the difference of two doubles is the double nearest to
    their exact difference. *)
Definition withinHundredth (existing : Number) (ratio : Q) : bool :=
  match existing with
  | Finite e => Qltb (toDouble (Qabs (e - toDouble ratio)%Q)) (toDouble (1 # 100))
  | _ => false
  end.

(** [s.toLowerCase()] on an attribute value. *)
Definition lowerChar (a : ascii) : ascii :=
  let n := N_of_ascii a in
  if ((65 <=? n) && (n <=? 90))%N then ascii_of_N (n + 32) else a.

Fixpoint toLowerCase (s : string) : string :=
  match s with
  | EmptyString => EmptyString
  | String a r => String (lowerChar a) (toLowerCase r)
  end.

(** ** Elements and the document *)

Definition node := nat.

(** What [window.getComputedStyle(element)] exposes to the script. *)
Record ComputedStyle := mkComputedStyle {
  display : string;
  visibility : string;
  opacity : string
}.

Record Element := mkElement {
  tagName : string;                   (* upper case, as the DOM reports it *)
  attributes : gmap string string;    (* the [style] attribute apart *)
  classList : list string;
  style : gmap string string;         (* the properties of the inline declaration *)
  value : jsstring;                   (* empty when the property is missing *)
  placeholder : jsstring;
  textContent : jsstring;
  innerText : jsstring;
  offsetParent : bool;                (* whether there is one *)
  offsetHeight : Z;
  offsetWidth : Z;
  computedStyle : option ComputedStyle  (* [None]: reading it throws *)
}.

Definition withAttributes (e : Element) (a : gmap string string) : Element :=
  mkElement (tagName e) a (classList e) (style e) (value e) (placeholder e)
    (textContent e) (innerText e) (offsetParent e) (offsetHeight e)
    (offsetWidth e) (computedStyle e).

Definition withStyle (e : Element) (s : gmap string string) : Element :=
  mkElement (tagName e) (attributes e) (classList e) s (value e) (placeholder e)
    (textContent e) (innerText e) (offsetParent e) (offsetHeight e)
    (offsetWidth e) (computedStyle e).

Definition withTextContent (e : Element) (t : jsstring) : Element :=
  mkElement (tagName e) (attributes e) (classList e) (style e) (value e)
    (placeholder e) t (innerText e) (offsetParent e) (offsetHeight e)
    (offsetWidth e) (computedStyle e).

Definition hasAttribute (e : Element) (a : string) : bool :=
  bool_decide (is_Some (attributes e !! a)).

(** The simple selectors the script uses, matched as on an HTML element of
    an HTML document that is not in quirks mode.  Type selectors are kept in
    upper case, the form in which [tagName] reports such an element, and
    attribute names in lower case, the form in which the element holds them. *)
Inductive Simple :=
  | SType (t : string)
  | SHas (a : string)
  | SAttr (a v : string)
  | SClass (c : string)
  | SNot (s : Simple).

(** The attributes whose values an attribute selector compares without
    regard to ASCII case (HTML, the case-sensitivity of selectors); the
    values of all other attributes are compared as written. *)
Definition caseInsensitiveAttributes : list string :=
  [ "accept"; "accept-charset"; "align"; "alink"; "axis"; "bgcolor"; "charset";
    "checked"; "clear"; "codetype"; "color"; "compact"; "declare"; "defer";
    "dir"; "direction"; "disabled"; "enctype"; "face"; "frame"; "hreflang";
    "http-equiv"; "lang"; "language"; "link"; "media"; "method"; "multiple";
    "nohref"; "noresize"; "noshade"; "nowrap"; "readonly"; "rel"; "rev";
    "rules"; "scope"; "scrolling"; "selected"; "shape"; "target"; "text";
    "type"; "valign"; "valuetype"; "vlink" ]%string.

(** Whether the value [w] of attribute [a] is the value [v] a selector
    [[a="v"]] asks for. *)
Definition attributeMatches (a v w : string) : bool :=
  if existsb (String.eqb a) caseInsensitiveAttributes
  then String.eqb (toLowerCase w) (toLowerCase v)
  else String.eqb w v.

Fixpoint matchesSimple (e : Element) (s : Simple) : bool :=
  match s with
  | SType t => String.eqb (tagName e) t
  | SHas a => hasAttribute e a
  | SAttr a v =>
      match attributes e !! a with
      | Some w => attributeMatches a v w
      | None => false
      end
  | SClass c => bool_decide (c ∈ classList e)
  | SNot s' => negb (matchesSimple e s')
  end.

(** A compound selector is a conjunction of simple selectors:
    [element.matches(sel)]. *)
Definition matches (e : Element) (sel : list Simple) : bool :=
  forallb (matchesSimple e) sel.

(** [this.targetSelectors] *)
Definition targetSelectors : list (list Simple) :=
  [ [SType "P"]; [SType "SPAN"];
    [SType "H1"]; [SType "H2"]; [SType "H3"]; [SType "H4"]; [SType "H5"]; [SType "H6"];
    [SType "INPUT"; SNot (SAttr "type" "password"); SNot (SAttr "type" "email");
       SNot (SAttr "type" "url")];
    [SType "TEXTAREA"];
    [SAttr "contenteditable" "true"];
    [SAttr "contenteditable" EmptyString];
    [SType "LABEL"]; [SType "BUTTON"]; [SType "A"]; [SType "LI"];
    [SType "TD"]; [SType "TH"] ]%string.

(** [this.skipSelectors] *)
Definition skipSelectors : list (list Simple) :=
  [ [SType "CODE"]; [SType "PRE"]; [SType "SCRIPT"]; [SType "STYLE"];
    [SType "NOSCRIPT"]; [SType "DIV"];
    [SHas "data-rtl-skip"]; [SClass "rtl-skip"];
    [SType "INPUT"; SAttr "type" "password"];
    [SType "INPUT"; SAttr "type" "email"];
    [SType "INPUT"; SAttr "type" "url"] ]%string.

(** The elements of a document or fragment, as a tree of identities. *)
#[warnings="-register-all"]
Inductive Tree := TNode (n : node) (kids : list Tree).

(** The nodes of a tree in document order. *)
Fixpoint treeNodes (t : Tree) : list node :=
  match t with
  | TNode n kids => n :: flat_map treeNodes kids
  end.

Definition forestNodes (f : list Tree) : list node := flat_map treeNodes f.

(** The descendants of [n], in document order, when [n] is in the tree. *)
Fixpoint descendantsIn (n : node) (t : Tree) : option (list node) :=
  match t with
  | TNode m kids =>
      if decide (m = n) then Some (forestNodes kids)
      else
        (fix among (ks : list Tree) : option (list node) :=
           match ks with
           | [] => None
           | k :: ks' =>
               match descendantsIn n k with
               | Some l => Some l
               | None => among ks'
               end
           end) kids
  end.

Fixpoint descendantsAmong (n : node) (f : list Tree) : option (list node) :=
  match f with
  | [] => None
  | t :: f' =>
      match descendantsIn n t with
      | Some l => Some l
      | None => descendantsAmong n f'
      end
  end.

(** The element nodes the page holds: those under the document, those of
    detached fragments, and the record of each. *)
Record Dom := mkDom {
  documentTree : list Tree;
  detached : list Tree;
  elems : gmap node Element
}.

Definition withElems (d : Dom) (m : gmap node Element) : Dom :=
  mkDom (documentTree d) (detached d) m.

(** [element.isConnected] *)
Definition isConnected (d : Dom) (n : node) : bool :=
  bool_decide (n ∈ forestNodes (documentTree d)).

(** The root of a query: the document or an element. *)
Inductive Root :=
  | RDocument
  | RElement (n : node).

Definition descendantsOf (d : Dom) (root : Root) : list node :=
  match root with
  | RDocument => forestNodes (documentTree d)
  | RElement n => default [] (descendantsAmong n (documentTree d ++ detached d))
  end.

(** [root.querySelectorAll(sels.join(","))] *)
Definition querySelectorAll (d : Dom) (root : Root) (sels : list (list Simple)) : list node :=
  List.filter
    (fun n => match elems d !! n with
              | Some e => existsb (matches e) sels
              | None => false
              end)
    (descendantsOf d root).

(** ** The engine *)

(** A target of a mutation record: an element, or another kind of node (a
    text node) with its [parentElement]. *)
Inductive Target :=
  | TargetElement (n : node)
  | TargetOther (parentElement : option node).

(** An entry of [mutation.addedNodes]. *)
Inductive Added :=
  | AddedElement (n : node)
  | AddedOther.

#[global] Instance Added_eq_dec : EqDecision Added.
Proof. solve_decision. Defined.

(** A [MutationRecord], by [mutation.type]. *)
Inductive Mutation :=
  | ChildList (addedNodes : list Added)
  | CharacterData (target : Target)
  | Attributes (target : Target).

(** What the closure [processChunk] of one call of [processElementsBatch]
    captures: the array and the index it advances. *)
Record Batch := mkBatch {
  elements : list node;
  currentIndex : nat
}.

Record State := mkState {
  config : gmap string Value;
  processedElements : gset node;
  textCache : gmap node jsstring;
  debounceTimer : option (list Mutation);  (* the pending timeout and the
                                              batch its callback captured *)
  isEnabled : bool;
  isProcessing : bool;
  animationFrames : list Batch;   (* callbacks waiting for the next frame *)
  dom : Dom;
  clock : nat -> Q;               (* the successive readings of the clock *)
  clockReads : nat
}.

Definition setTextCache (st : State) (c : gmap node jsstring) : State :=
  mkState (config st) (processedElements st) c (debounceTimer st) (isEnabled st)
    (isProcessing st) (animationFrames st) (dom st) (clock st) (clockReads st).

Definition setProcessedElements (st : State) (p : gset node) : State :=
  mkState (config st) p (textCache st) (debounceTimer st) (isEnabled st)
    (isProcessing st) (animationFrames st) (dom st) (clock st) (clockReads st).

Definition setDebounceTimer (st : State) (t : option (list Mutation)) : State :=
  mkState (config st) (processedElements st) (textCache st) t (isEnabled st)
    (isProcessing st) (animationFrames st) (dom st) (clock st) (clockReads st).

Definition setIsEnabled (st : State) (b : bool) : State :=
  mkState (config st) (processedElements st) (textCache st) (debounceTimer st) b
    (isProcessing st) (animationFrames st) (dom st) (clock st) (clockReads st).

Definition setIsProcessing (st : State) (b : bool) : State :=
  mkState (config st) (processedElements st) (textCache st) (debounceTimer st)
    (isEnabled st) b (animationFrames st) (dom st) (clock st) (clockReads st).

Definition setAnimationFrames (st : State) (f : list Batch) : State :=
  mkState (config st) (processedElements st) (textCache st) (debounceTimer st)
    (isEnabled st) (isProcessing st) f (dom st) (clock st) (clockReads st).

Definition setDom (st : State) (d : Dom) : State :=
  mkState (config st) (processedElements st) (textCache st) (debounceTimer st)
    (isEnabled st) (isProcessing st) (animationFrames st) d (clock st) (clockReads st).

Definition setElement (st : State) (n : node) (e : Element) : State :=
  setDom st (withElems (dom st) (<[n := e]> (elems (dom st)))).

(** [performance.now()] *)
Definition performanceNow (st : State) : Q * State :=
  (clock st (clockReads st),
   mkState (config st) (processedElements st) (textCache st) (debounceTimer st)
     (isEnabled st) (isProcessing st) (animationFrames st) (dom st) (clock st)
     (S (clockReads st))).

(** [a || b] on strings *)
Definition orText (a b : jsstring) : jsstring :=
  match a with
  | [] => b
  | _ :: _ => a
  end.

(** The text [getElementText] computes for an element. *)
Definition elementText (e : Element) : jsstring :=
  if String.eqb (tagName e) "INPUT" || String.eqb (tagName e) "TEXTAREA"
  then value e ++ js " " ++ placeholder e
  else if hasAttribute e "contenteditable"
  then orText (textContent e) (innerText e)
  else orText (textContent e) (innerText e).

(** [getElementText(element)]: the text is written to the cache before it
    is returned.  A reference that is no element makes the body throw; the
    handler returns the empty string. *)
Definition getElementText (st : State) (n : node) : jsstring * State :=
  match elems (dom st) !! n with
  | Some e =>
      let text := elementText e in
      (text, setTextCache st (<[n := text]> (textCache st)))
  | None => ([], st)
  end.

(** [getBestTextAlign(element)] *)
Definition getBestTextAlign (e : Element) : string :=
  if String.eqb (tagName e) "BUTTON" then "center"
  else if String.eqb (tagName e) "TD" || String.eqb (tagName e) "TH" then "inherit"
  else if String.eqb (tagName e) "INPUT" || String.eqb (tagName e) "TEXTAREA"
          || hasAttribute e "contenteditable"
  then "right"
  else "right".

(** The explicit left-to-right override:
    [hasAttribute("dir") && getAttribute("dir").toLowerCase() === "ltr"]. *)
Definition ltrDirection (a : gmap string string) : bool :=
  match a !! "dir" with
  | Some v => String.eqb (toLowerCase v) "ltr"
  | None => false
  end.

Definition hasLtrOverride (e : Element) : bool := ltrDirection (attributes e).

(** The guard on the ratio the element already carries:
    [existingRatio && Math.abs(parseFloat(existingRatio) - arabicRatio) < 0.01]. *)
Definition sameRatioApplied (e : Element) (arabicRatio : Q) : bool :=
  match attributes e !! "data-arabic-ratio" with
  | Some existingRatio =>
      negb (String.eqb existingRatio EmptyString)
      && withinHundredth (parseFloat existingRatio) arabicRatio
  | None => false
  end.

(** The object [styles] that [applyRTLStyles] builds. *)
Definition rtlStyles (cfg : gmap string Value) (e : Element) (arabicRatio : Q)
  : gmap string string :=
  let styles : gmap string string :=
    <["unicodeBidi" := if Qltb (7 # 10) arabicRatio then "bidi-override" else "plaintext"]>
      (<["textAlign" := getBestTextAlign e]> ∅) in
  let styles :=
    if negb (String.eqb (tagName e) "DIV")
    then <["textAlign" := "right"]>
           (<["unicodeBidi" := "embed"]> (<["direction" := "rtl"]> styles))
    else styles in
  if truthy (prop cfg "enableVisualFeedback")
  then <["transition" := "all 0.3s ease"]> styles
  else styles.

(** What [applyRTLStyles] writes on an element it does not skip:
    [Object.assign(element.style, styles)] and the two attributes. *)
Definition styledElement (cfg : gmap string Value) (e : Element) (arabicRatio : Q)
  : Element :=
  withAttributes
    (withStyle e (rtlStyles cfg e arabicRatio ∪ style e))
    (<["data-arabic-ratio" := toFixed2 arabicRatio]>
       (<["data-rtl-applied" := "true"]> (attributes e))).

(** [applyRTLStyles(element, arabicRatio)] *)
Definition applyRTLStyles (st : State) (n : node) (arabicRatio : Q) : State :=
  match elems (dom st) !! n with
  | None => st
  | Some e =>
      if hasLtrOverride e then st
      else if sameRatioApplied e arabicRatio then st
      else setElement st n (styledElement (config st) e arabicRatio)
  end.

(** [["SPAN", "H1", "A", "P"].includes(element.tagName)] *)
Definition alwaysChecked (e : Element) : bool :=
  bool_decide (tagName e ∈ ["SPAN"; "H1"; "A"; "P"]).

Section Engine.

Variable isLetter : N -> bool.

(** [processElement(element)] *)
Definition processElement (st : State) (n : node) : State :=
  match elems (dom st) !! n with
  | None => st
  | Some e =>
      if negb (isConnected (dom st) n) then st
      else
        let '(text, st) := getElementText st n in
        match text with
        | [] => st
        | _ :: _ =>
            if (length (trim text) <? 3)%nat then st
            else
              let arabicRatio := calculateArabicRatio isLetter text in
              let st :=
                if alwaysChecked e && Qltb 0 arabicRatio
                then applyRTLStyles st n arabicRatio
                else if geValue arabicRatio (prop (config st) "arabicThreshold")
                then applyRTLStyles st n arabicRatio
                else st in
              setProcessedElements st ({[n]} ∪ processedElements st)
        end
  end.

(** [isElementVisible(element)] *)
Definition isElementVisible (e : Element) : bool :=
  if negb (offsetParent e) && (offsetHeight e =? 0)%Z && (offsetWidth e =? 0)%Z
  then false
  else
    match computedStyle e with
    | None => true
    | Some cs =>
        negb (String.eqb (display cs) "none")
        && negb (String.eqb (visibility cs) "hidden")
        && negb (String.eqb (opacity cs) "0")
    end.

(** The callback of the filter in [getTargetElements]. *)
Definition keepTarget (st : State) (n : node) : bool * State :=
  match elems (dom st) !! n with
  | None => (false, st)
  | Some e =>
      if existsb (matches e) skipSelectors then (false, st)
      else if negb (isElementVisible e) then (false, st)
      else if bool_decide (n ∈ processedElements st)
              && bool_decide (is_Some (textCache st !! n))
      then
        let '(currentText, st) := getElementText st n in
        let cachedText := textCache st !! n in
        if bool_decide (cachedText = Some currentText) then (false, st)
        else (true, st)
      else (true, st)
  end.

(** [elements.filter(...)] with the state the callback threads. *)
Fixpoint filterTargets (st : State) (l : list node) : list node * State :=
  match l with
  | [] => ([], st)
  | n :: l' =>
      let '(keep, st) := keepTarget st n in
      let '(rest, st) := filterTargets st l' in
      (if keep then n :: rest else rest, st)
  end.

(** [getTargetElements(root)] *)
Definition getTargetElements (st : State) (root : Root) : list node * State :=
  filterTargets st (querySelectorAll (dom st) root targetSelectors).

(** [processElementsBatch(elements)]: the first slice is handed to
    [requestAnimationFrame]. *)
Definition processElementsBatch (st : State) (els : list node) : State :=
  match els with
  | [] => st
  | _ :: _ =>
      if isProcessing st then st
      else
        setAnimationFrames (setIsProcessing st true)
          (animationFrames st ++ [mkBatch els 0])
  end.

(** The loop of [processChunk] over the elements from [currentIndex] on. *)
Fixpoint chunkLoop (startTime : Q) (rest : list node) (index : nat) (st : State)
  : nat * State :=
  match rest with
  | [] => (index, st)
  | element :: rest' =>
      let '(now, st) := performanceNow st in
      if ltValue (now - startTime) (prop (config st) "maxProcessingTime")
      then
        let st := if isConnected (dom st) element
                  then processElement st element else st in
        chunkLoop startTime rest' (S index) st
      else (index, st)
  end.

(** One run of the closure [processChunk]. *)
Definition processChunk (st : State) (b : Batch) : State :=
  let '(startTime, st) := performanceNow st in
  let '(index, st) :=
    chunkLoop startTime (drop (currentIndex b) (elements b)) (currentIndex b) st in
  if (index <? length (elements b))%nat
  then setAnimationFrames st (animationFrames st ++ [mkBatch (elements b) index])
  else setIsProcessing st false.

(** [scanDOM(root)] *)
Definition scanDOM (st : State) (root : Root) : State :=
  if negb (isEnabled st) || isProcessing st then st
  else
    let '(els, st) := getTargetElements st root in
    processElementsBatch st els.

(** [handleMutations(mutations)]: the pending timeout is cleared and a new
    one is set whose callback holds the batch just received. *)
Definition handleMutations (st : State) (mutations : list Mutation) : State :=
  if negb (isEnabled st) || isProcessing st then st
  else setDebounceTimer st (Some mutations).

(** [elementsToProcess.add(x)] on a [Set] kept in insertion order. *)
Definition setAdd (s : list node) (x : node) : list node :=
  if bool_decide (x ∈ s) then s else s ++ [x].

(** The cache entry and the processed mark of a changed element are
    dropped and the element joins the set. *)
Definition invalidate (acc : list node * State) (n : node) : list node * State :=
  let '(s, st) := acc in
  let st := setTextCache st (delete n (textCache st)) in
  let st := setProcessedElements st (processedElements st ∖ {[n]}) in
  (setAdd s n, st).

(** The body of [mutations.forEach] in [processMutations]. *)
Definition processMutation (acc : list node * State) (m : Mutation)
  : list node * State :=
  match m with
  | ChildList added =>
      fold_left
        (fun acc a =>
           match a with
           | AddedElement n =>
               let '(s, st) := acc in
               let s := setAdd s n in
               let '(children, st) := getTargetElements st (RElement n) in
               (fold_left setAdd children s, st)
           | AddedOther => acc
           end)
        added acc
  | CharacterData t | Attributes t =>
      match t with
      | TargetElement n => invalidate acc n
      | TargetOther (Some p) => invalidate acc p
      | TargetOther None => acc
      end
  end.

(** The set [elementsToProcess] that [processMutations] builds, with the
    state after the invalidations. *)
Definition affectedElements (st : State) (mutations : list Mutation)
  : list node * State :=
  fold_left processMutation mutations ([], st).

(** [processMutations(mutations)] *)
Definition processMutations (st : State) (mutations : list Mutation) : State :=
  let '(elementsToProcess, st) := affectedElements st mutations in
  match elementsToProcess with
  | [] => st
  | _ :: _ => processElementsBatch st elementsToProcess
  end.

(** What [removeAllRTLStyles] does to one element of its query.  Setting a
    style property to the empty string removes it from the inline
    declaration; the [style] attribute of the element, which serialises the
    declaration, may stay behind empty, which the record does not tell. *)
Definition removeRTLStyles (st : State) (n : node) : State :=
  match elems (dom st) !! n with
  | None => st
  | Some e =>
      let e :=
        withAttributes
          (withStyle e
             (delete "transition" (delete "unicodeBidi"
                (delete "textAlign" (delete "direction" (style e))))))
          (delete "data-arabic-ratio" (delete "data-rtl-applied" (attributes e))) in
      let st := setElement st n e in
      let st := setProcessedElements st (processedElements st ∖ {[n]}) in
      setTextCache st (delete n (textCache st))
  end.

(** [removeAllRTLStyles()] *)
Definition removeAllRTLStyles (st : State) : State :=
  fold_left removeRTLStyles
    (querySelectorAll (dom st) RDocument [[SAttr "data-rtl-applied" "true"]])
    st.

(** [enable()] *)
Definition enable (st : State) : State :=
  scanDOM (setIsEnabled st true) RDocument.

(** [disable()] *)
Definition disable (st : State) : State :=
  let st := setIsEnabled st false in
  let st := setIsProcessing st false in
  let st := setDebounceTimer st None in
  removeAllRTLStyles st.

(** [destroy()] (the observer and the listener are not part of the state) *)
Definition destroy (st : State) : State :=
  let st := disable st in
  let st := setDebounceTimer st None in
  setTextCache (setProcessedElements st ∅) ∅.

(** The timeout set by [handleMutations] expires: its callback runs
    [processMutations] on the batch it captured. *)
Definition timerFires (st : State) : State :=
  match debounceTimer st with
  | Some mutations => processMutations (setDebounceTimer st None) mutations
  | None => st
  end.

(** An animation frame: the callbacks registered so far run in order; those
    they register wait for the next frame. *)
Definition animationFrame (st : State) : State :=
  fold_left processChunk (animationFrames st) (setAnimationFrames st []).

(** [this.config] as the constructor builds it: the defaults, then the
    spread of [options], which overrides every key [options] has. *)
Definition makeConfig (options : gmap string Value) : gmap string Value :=
  options ∪
  <["arabicThreshold" := orElse (prop options "arabicThreshold") (VNum (3 # 10))]>
  (<["debounceDelay" := orElse (prop options "debounceDelay") (VNum 150)]>
  (<["enableVisualFeedback" := notFalse (prop options "enableVisualFeedback")]>
  (<["enableIframeHandling" := notFalse (prop options "enableIframeHandling")]>
  (<["batchSize" := orElse (prop options "batchSize") (VNum 30)]>
  (<["maxProcessingTime" := orElse (prop options "maxProcessingTime") (VNum 16)]>
   ∅))))).

(** The fields the constructor sets, on a page [d] with clock [clk]. *)
Definition newCorrector (options : gmap string Value) (d : Dom) (clk : nat -> Q)
  : State :=
  mkState (makeConfig options) ∅ ∅ None true false [] d clk 0.

(** [handleDOMContentLoaded()]: the initial scan. *)
Definition handleDOMContentLoaded (st : State) : State := scanDOM st RDocument.

(** What happens to an engine: the browser runs a frame or the timer, the
    observer reports a batch, a command arrives, or the page edits its
    document. *)
Inductive Event :=
  | AnimationFrame
  | TimerFires
  | MutationsObserved (mutations : list Mutation)
  | Enable
  | Disable
  | Scan (root : Root)
  | PageChange (f : Dom -> Dom).

Definition step (st : State) (ev : Event) : State :=
  match ev with
  | AnimationFrame => animationFrame st
  | TimerFires => timerFires st
  | MutationsObserved mutations => handleMutations st mutations
  | Enable => enable st
  | Disable => disable st
  | Scan root => scanDOM st root
  | PageChange f => setDom st (f (dom st))
  end.

Definition run (st : State) (evs : list Event) : State := fold_left step evs st.

End Engine.

(** ** Observations used by the statements *)

(** The attributes and the inline style of a node. *)
Definition presentation (d : Dom) (n : node)
  : option (gmap string string * gmap string string) :=
  (fun e => (attributes e, style e)) <$> elems d !! n.

Definition attributeOf (d : Dom) (n : node) (a : string) : option string :=
  match elems d !! n with
  | Some e => attributes e !! a
  | None => None
  end.

(** A node is styled when it carries the marker the script sets. *)
Definition styled (d : Dom) (n : node) : bool :=
  bool_decide (attributeOf d n "data-rtl-applied" = Some "true"%string).

(** The node is marked processed and has a cached text. *)
Definition markedProcessed (st : State) (n : node) : Prop :=
  n ∈ processedElements st ∧ is_Some (textCache st !! n).

(** The text extracted from the node now is not the cached one (there may
    be none). *)
Definition textDiffers (st : State) (n : node) : Prop :=
  textCache st !! n ≠ Some (getElementText st n).1.

(** The elements a mutation record names: the inserted elements and the
    element a content or attribute change is reported for. *)
Definition namedByMutation (n : node) (m : Mutation) : bool :=
  match m with
  | ChildList added => bool_decide (AddedElement n ∈ added)
  | CharacterData t | Attributes t =>
      match t with
      | TargetElement k => bool_decide (k = n)
      | TargetOther (Some k) => bool_decide (k = n)
      | TargetOther None => false
      end
  end.

Definition namedBy (mutations : list Mutation) (n : node) : bool :=
  existsb (namedByMutation n) mutations.

(** A page edit that leaves the attributes and the inline style of [n]
    alone; the events of the engine itself always qualify. *)
Definition keepsPresentation (n : node) (ev : Event) : Prop :=
  match ev with
  | PageChange f => ∀ d, presentation (f d) n = presentation d n
  | _ => True
  end.


(** ** Predicates of the proofs *)

(** A property of the state is stable when the elementary writes of the
    engine keep it: the writes of its own fields, a reading of the clock, and
    the two writes on elements ([applyRTLStyles] and [removeAllRTLStyles]). *)
Record Stable (P : State -> Prop) : Prop := mkStable {
  stable_textCache : ∀ st c, P st -> P (setTextCache st c);
  stable_processed : ∀ st p, P st -> P (setProcessedElements st p);
  stable_timer : ∀ st t, P st -> P (setDebounceTimer st t);
  stable_enabled : ∀ st b, P st -> P (setIsEnabled st b);
  stable_processing : ∀ st b, P st -> P (setIsProcessing st b);
  stable_frames : ∀ st f, P st -> P (setAnimationFrames st f);
  stable_now : ∀ st, P st -> P (performanceNow st).2;
  stable_apply : ∀ st n r, P st -> P (applyRTLStyles st n r);
  stable_removeAll : ∀ st, P st -> P (removeAllRTLStyles st)
}.

(** A page edit keeps the property [P]; the events of the engine need no
    condition. *)
Definition pageKeeps (P : State -> Prop) (ev : Event) : Prop :=
  match ev with
  | PageChange f => ∀ st, P st -> P (setDom st (f (dom st)))
  | _ => True
  end.

(** Reading back what [toFixed2] writes, for the hundredths 0 to 100. *)
Definition readsBack (k : nat) : bool :=
  match parseFloat (fixedDigits (Z.of_nat k)) with
  | Finite q =>
      Qeq_bool q (toDouble (Z.of_nat k # 100))
      && negb (String.eqb (fixedDigits (Z.of_nat k)) EmptyString)
  | _ => false
  end.

(** Two states mark the same nodes as processed and cache a text for the
    same nodes. *)
Definition sameMarks (st st' : State) : Prop :=
  processedElements st' = processedElements st
  ∧ ∀ k, is_Some (textCache st' !! k) ↔ is_Some (textCache st !! k).

(** What holds of the set under construction and of the state while
    [processMutations] runs over [mutations] from [st0]: a node that lost
    its mark is named by a record, and so is every member of the set that
    was marked in [st0]. *)
Definition selectionInv (st0 : State) (mutations : list Mutation)
    (acc : list node * State) : Prop :=
  (∀ k, markedProcessed st0 k ->
        markedProcessed acc.2 k ∨ namedBy mutations k = true)
  ∧ (∀ n, n ∈ acc.1 -> namedBy mutations n = true ∨ ¬ markedProcessed st0 n).

(** A node carries neither attribute, is not marked processed and has no
    cached text. *)
Definition cleared (st : State) (n : node) : Prop :=
  attributeOf (dom st) n "data-rtl-applied" = None
  ∧ attributeOf (dom st) n "data-arabic-ratio" = None
  ∧ (n ∉ processedElements st)
  ∧ textCache st !! n = None.

(** ** Statistics, delegation and the footprint of the engine *)

(** The nodes [getStats] and [removeAllRTLStyles] query: the nodes of the
    document that carry the marker. *)
Definition rtlElements (d : Dom) : list node :=
  querySelectorAll d RDocument [[SAttr "data-rtl-applied" "true"]].

(** [stats.totalProcessed] of [getStats()] *)
Definition totalProcessed (st : State) : nat := length (rtlElements (dom st)).

(** What a property of [stats.elementTypes] holds: a count, or, once an
    inherited property has been read for it, a string that is no count. *)
Inductive Count :=
  | Counted (c : nat)
  | Garbled.

(** The property names a plain object [{}] inherits from
    [Object.prototype]: reading one of them on the object gives a function
    (for [__proto__], the prototype object), not [undefined]. *)
Definition inheritedKeys : list string :=
  [ "constructor"; "__proto__"; "hasOwnProperty"; "isPrototypeOf";
    "propertyIsEnumerable"; "toLocaleString"; "toString"; "valueOf";
    "__defineGetter__"; "__defineSetter__"; "__lookupGetter__";
    "__lookupSetter__" ]%string.

(** One step of the loop of [getStats] on [stats.elementTypes], a plain
    object: [elementTypes[tagName] = (elementTypes[tagName] || 0) + 1] with
    [tagName = element.tagName.toLowerCase()].  The map holds the own
    properties of the object.  A count is incremented and a missing key
    starts at 1; for an inherited key the value read is truthy, so that
    [+ 1] makes a string of it, and so again at each later step; the string
    becomes an own property, except under [__proto__], where assigning a
    string does nothing.  [lowerCase] stands for [String.prototype.toLowerCase]. *)
Definition countType (lowerCase : string -> string) (d : Dom)
    (types : gmap string Count) (n : node) : gmap string Count :=
  match elems d !! n with
  | Some e =>
      let tag := lowerCase (tagName e) in
      match types !! tag with
      | Some (Counted c) => <[tag := Counted (S c)]> types
      | Some Garbled => <[tag := Garbled]> types
      | None =>
          if String.eqb tag "__proto__" then types
          else if existsb (String.eqb tag) inheritedKeys
               then <[tag := Garbled]> types
               else <[tag := Counted 1]> types
      end
  | None => types
  end.

(** [stats.elementTypes] of [getStats()].  (The third field of the result,
    the average ratio, is not part of this development.) *)
Definition elementTypes (lowerCase : string -> string) (st : State)
  : gmap string Count :=
  fold_left (countType lowerCase (dom st)) (rtlElements (dom st)) ∅.

(** The options [handleIframes] passes to the engine of an embedded
    document: [{...this.config, enableIframeHandling: false}]. *)
Definition iframeOptions (cfg : gmap string Value) : gmap string Value :=
  <["enableIframeHandling" := VBool false]> cfg.



(** The fields of the engine that steer scheduling. *)
Definition control (st : State)
  : gmap string Value * option (list Mutation) * bool * bool * list Batch :=
  (config st, debounceTimer st, isEnabled st, isProcessing st, animationFrames st).

(** At most one batch is in flight, and [isProcessing] says whether one is. *)
Definition singleFlight (st : State) : Prop :=
  (length (animationFrames st) <= 1)%nat
  ∧ (isProcessing st = true ↔ animationFrames st ≠ []).

(** The events that cannot wake a disabled engine. *)
Definition passiveEvent (ev : Event) : bool :=
  match ev with
  | AnimationFrame | TimerFires | MutationsObserved _ | Scan _ => true
  | Enable | Disable | PageChange _ => false
  end.

Definition notDisable (ev : Event) : bool :=
  match ev with
  | Disable => false
  | _ => true
  end.

(** The elements a content or attribute record reports. *)
Definition reportedChange (n : node) (m : Mutation) : bool :=
  match m with
  | ChildList _ => false
  | CharacterData t | Attributes t =>
      match t with
      | TargetElement k => bool_decide (k = n)
      | TargetOther (Some k) => bool_decide (k = n)
      | TargetOther None => false
      end
  end.

(** What the filter of [getTargetElements] asks of a candidate besides
    its marks: a record, no skip selector, visibility. *)
Definition passesFilter (d : Dom) (n : node) : bool :=
  match elems d !! n with
  | Some e => negb (existsb (matches e) skipSelectors) && isElementVisible e
  | None => false
  end.


(** What the operations below the scheduler leave alone: the steering
    fields, the clock, the trees of the page and the set of nodes that have a
    record. *)
Definition sameFrame (st st' : State) : Prop :=
  control st' = control st
  ∧ clock st' = clock st
  ∧ documentTree (dom st') = documentTree (dom st)
  ∧ detached (dom st') = detached (dom st).

(** The sum of the counts of a histogram. *)
Definition countOf (c : Count) : nat :=
  match c with
  | Counted k => k
  | Garbled => 0%nat
  end.

Definition histogramTotal (types : gmap string Count) : nat :=
  map_fold (fun _ c acc => (countOf c + acc)%nat) 0%nat types.

(** The text [getElementText] would extract from a node. *)
Definition textOf (d : Dom) (n : node) : option jsstring :=
  elementText <$> elems d !! n.

(** The time budget covers a slice that starts now with [k] elements to go:
    each of the [k] readings of the clock that follow the reading taken at
    the start of the slice is less than [maxProcessingTime] after it. *)
Definition budgetCoversSlice (st : State) (k : nat) : Prop :=
  ∀ j, (clockReads st < j <= clockReads st + k)%nat ->
       ltValue (clock st j - clock st (clockReads st))
         (prop (config st) "maxProcessingTime") = true.

(** The time budget of a slice is used up at once: no difference between a
    reading and an earlier one is below [maxProcessingTime] (a budget of 0
    with a clock that does not run backwards, or a budget that is no
    number). *)
Definition budgetAlwaysExhausted (st : State) : Prop :=
  ∀ i j, (i <= j)%nat ->
         ltValue (clock st j - clock st i) (prop (config st) "maxProcessingTime") = false.

(** The events after which a styled node is still styled: all but
    [disable] and the edits of the page. *)
Definition keepsStyling (ev : Event) : bool :=
  match ev with
  | Disable | PageChange _ => false
  | _ => true
  end.

(** Every node marked as processed has a cached text. *)
Definition cacheCoversProcessed (st : State) : Prop :=
  ∀ n, n ∈ processedElements st -> is_Some (textCache st !! n).

(** ** Example pages *)

Definition visibleStyle : ComputedStyle := mkComputedStyle "block" "visible" "1".

(** A visible element without attributes holding [text]. *)
Definition plainElement (tag : string) (text : jsstring) : Element :=
  mkElement tag ∅ [] ∅ [] [] text text true 10 10 (Some visibleStyle).

(** Four Arabic letters (seen, lam, alef, meem). *)
Definition arabicWord : jsstring := [0x633; 0x644; 0x627; 0x645]%N.


(** A clock that lets a slice started at the first reading process one
    element only. *)
Definition slowClock (k : nat) : Q := if (k <? 2)%nat then 0 else 20.

Definition steadyClock (k : nat) : Q := 0.

(** A clock that advances by one millisecond from a reading to the next. *)
Definition tickingClock (k : nat) : Q := inject_Z (Z.of_nat k).

(** A page with two paragraphs of Arabic text. *)
Definition twoParagraphs : Dom :=
  mkDom [TNode 1 []; TNode 2 []] []
    (<[1 := plainElement "P" arabicWord]>
       (<[2 := plainElement "P" arabicWord]> ∅)).

(** A page with one element. *)
Definition onePage (e : Element) : Dom :=
  mkDom [TNode 1 []] [] (<[1 := e]> ∅).

Definition elementWith (e : Element) (a v : string) : Element :=
  withAttributes e (<[a := v]> (attributes e)).

(** A page edit: the text of one element changes. *)
Definition setTextOf (n : node) (t : jsstring) (d : Dom) : Dom :=
  withElems d (alter (fun e => withTextContent e t) n (elems d)).

(** A paragraph of two Arabic letters. *)
Definition shortPage : Dom := onePage (plainElement "P" [0x645; 0x627]%N).

(** A paragraph of Arabic text whose author asks for left-to-right. *)
Definition ltrPage : Dom :=
  onePage (elementWith (plainElement "P" arabicWord) "dir" "LTR").


(** A page whose one element, of an unknown tag that is the name of an
    inherited property, holds Arabic text and has been styled. *)
Definition constructorPage : State :=
  applyRTLStyles
    (newCorrector ∅ (onePage (plainElement "CONSTRUCTOR" arabicWord)) steadyClock) 1 1.


(** The engine on the page of two paragraphs after a full scan. *)
Definition scannedTwoParagraphs : State :=
  run sampleLetter (newCorrector ∅ twoParagraphs steadyClock)
    [Scan RDocument; AnimationFrame].

(** The engine on the page of two paragraphs with a timeout pending for a
    reported change and a scan whose first slice ran out of time after one
    element. *)
Definition midBatch : State :=
  run sampleLetter (newCorrector ∅ twoParagraphs slowClock)
    [MutationsObserved [CharacterData (TargetElement 2)];
     Scan RDocument; AnimationFrame].

(** The engine on the page of two paragraphs, configured with a time budget
    of 0, after a scan. *)
Definition zeroBudget : State :=
  run sampleLetter
    (newCorrector (<["maxProcessingTime" := VNum 0]> ∅) twoParagraphs steadyClock)
    [Scan RDocument].

(** * Properties *)

(** ** The classifier *)

Section ClassifierFacts.

Variable isLetter : N -> bool.

Lemma spanLen_all (p : N -> bool) (s : jsstring) :
  forallb p s = true -> spanLen p s = length s.
Proof.
  induction s as [|c s IH]; simpl; [reflexivity|].
  intros H. apply andb_prop in H as [Hc Hs]. rewrite Hc, IH; auto.
Qed.

Lemma removeWhitespace_none (s : jsstring) :
  forallb (fun c => negb (isSpace c)) s = true -> removeWhitespace s = s.
Proof.
  unfold removeWhitespace.
  induction s as [|c s IH]; simpl; [reflexivity|].
  intros H. apply andb_prop in H as [Hc Hs]. rewrite Hc, IH; auto.
Qed.

Lemma removeLtrFrom_skip_all (s : jsstring) (k : nat) :
  length s <= k -> removeLtrFrom k s = [].
Proof.
  revert k. induction s as [|c s IH]; intros k Hk; simpl; [reflexivity|].
  simpl in Hk. destruct k as [|k]; [lia|]. apply IH. lia.
Qed.

Lemma matchNonSpaces_all (s : jsstring) :
  s <> [] -> forallb (fun c => negb (isSpace c)) s = true ->
  matchNonSpaces s = Some (length s).
Proof.
  intros Hne Hall. unfold matchNonSpaces. rewrite spanLen_all by assumption.
  destruct s; [congruence | reflexivity].
Qed.

Lemma removeLtrFrom_whole (s : jsstring) (k : nat) :
  ltrPreserveMatch s = Some k -> length s <= k -> removeLtrFrom 0 s = [].
Proof.
  intros Hm Hk. destruct s as [|c s]; [reflexivity|].
  cbn [removeLtrFrom]. rewrite Hm. simpl in Hk.
  destruct k as [|k]; [lia|]. apply removeLtrFrom_skip_all. lia.
Qed.

Lemma url_token_match (scheme rest : jsstring) :
  scheme ∈ [js "http://"; js "https://"; js "www."] ->
  rest <> [] -> forallb (fun c => negb (isSpace c)) rest = true ->
  ltrPreserveMatch (scheme ++ rest) = Some (length scheme + length rest).
Proof.
  intros Hs Hne Hall.
  assert (Hm := matchNonSpaces_all rest Hne Hall).
  unfold ltrPreserveMatch, matchDigits, matchHttp, matchWww.
  repeat (apply elem_of_cons in Hs as [->|Hs];
          [ match goal with
            | |- context [js ?l ++ rest] =>
                let v := eval vm_compute in (js l) in change (js l) with v
            end;
            let w := eval vm_compute in (js "http") in change (js "http") with w;
            let w := eval vm_compute in (js "://") in change (js "://") with w;
            let w := eval vm_compute in (js "www.") in change (js "www.") with w;
            cbn -[matchNonSpaces]; rewrite Hm; reflexivity |]).
  apply elem_of_nil in Hs. destruct Hs.
Qed.

(** A text that is one URL-like token is deleted whole by the second
    replacement, so nothing of it reaches the count. *)
Lemma url_token_removed (scheme rest : jsstring) :
  scheme ∈ [js "http://"; js "https://"; js "www."] ->
  rest <> [] -> forallb (fun c => negb (isSpace c)) rest = true ->
  removeLtrPreserve (removeWhitespace (scheme ++ rest)) = [].
Proof.
  intros Hs Hne Hall.
  assert (Hscheme : forallb (fun c => negb (isSpace c)) scheme = true).
  { repeat (apply elem_of_cons in Hs as [->|Hs]; [reflexivity|]).
    apply elem_of_nil in Hs. destruct Hs. }
  rewrite removeWhitespace_none by (rewrite forallb_app, Hscheme, Hall; reflexivity).
  apply (removeLtrFrom_whole _ _ (url_token_match scheme rest Hs Hne Hall)).
  rewrite length_app. lia.
Qed.

Lemma url_token_ratio (scheme rest : jsstring) :
  scheme ∈ [js "http://"; js "https://"; js "www."] ->
  rest <> [] -> forallb (fun c => negb (isSpace c)) rest = true ->
  calculateArabicRatio isLetter (scheme ++ rest) = 0%Q.
Proof.
  intros Hs Hne Hall. unfold calculateArabicRatio, cleanText.
  rewrite (url_token_removed scheme rest Hs Hne Hall). simpl.
  destruct (scheme ++ rest) as [|c text]; [reflexivity|].
  destruct (length (trim (c :: text)) =? 0)%nat; reflexivity.
Qed.

Lemma arabicMatches_length (s : jsstring) :
  (length (arabicMatches s) <= length s)%nat.
Proof.
  unfold arabicMatches. induction s as [|c s IH]; simpl; [lia|].
  destruct (isArabic c); simpl; lia.
Qed.

(** The ratio is a number between 0 and 1. *)
Lemma calculateArabicRatio_range (text : jsstring) :
  (0 <= calculateArabicRatio isLetter text <= 1)%Q.
Proof.
  unfold calculateArabicRatio.
  destruct text as [|c text]; [split; discriminate|].
  destruct (length (trim (c :: text)) =? 0)%nat; [split; discriminate|].
  set (clean := cleanText isLetter (c :: text)).
  pose proof (arabicMatches_length clean) as Hle.
  destruct (length clean) as [|n] eqn:Hlen; [split; discriminate|].
  unfold Qle; simpl. split; lia.
Qed.

(** C7: the ratio is a function of the text alone (it takes no other
    argument and is a number, so it equals itself), it is 0 on the empty
    text and on "12345", and a text that is one URL-like token such as
    "https://x.y/ar" yields 0. *)
Theorem calculateArabicRatio_pure :
  (∀ text, calculateArabicRatio isLetter text == calculateArabicRatio isLetter text
           ∧ 0 <= calculateArabicRatio isLetter text <= 1)%Q
  ∧ calculateArabicRatio isLetter [] = 0%Q
  ∧ calculateArabicRatio isLetter (js "12345") = 0%Q
  ∧ calculateArabicRatio isLetter (js "https://x.y/ar") = 0%Q.
Proof.
  split; [|repeat split; reflexivity].
  intros text. split; [reflexivity | apply calculateArabicRatio_range].
Qed.

End ClassifierFacts.

(** ** Properties kept by every operation of the engine *)

Section StableFacts.

Variable isLetter : N -> bool.
Variable P : State -> Prop.
Hypothesis HP : Stable P.

Local Ltac stable_auto :=
  repeat first
    [ assumption
    | apply (stable_textCache P HP) | apply (stable_processed P HP)
    | apply (stable_timer P HP) | apply (stable_enabled P HP)
    | apply (stable_processing P HP) | apply (stable_frames P HP)
    | apply (stable_now P HP) | apply (stable_apply P HP)
    | apply (stable_removeAll P HP) ].

Lemma stable_getElementText st n : P st -> P (getElementText st n).2.
Proof.
  intros H. unfold getElementText.
  destruct (elems (dom st) !! n); simpl; stable_auto.
Qed.

Lemma stable_processElement st n : P st -> P (processElement isLetter st n).
Proof.
  intros H. unfold processElement.
  destruct (elems (dom st) !! n) as [e|]; [|assumption].
  destruct (negb (isConnected (dom st) n)); [assumption|].
  pose proof (stable_getElementText st n H) as H1.
  destruct (getElementText st n) as [text st1]; simpl in H1.
  destruct text as [|c text]; [assumption|].
  destruct (length (trim (c :: text)) <? 3)%nat; [assumption|].
  apply (stable_processed P HP).
  repeat match goal with |- context [if ?b then _ else _] => destruct b end;
    stable_auto.
Qed.

Lemma stable_keepTarget st n : P st -> P (keepTarget st n).2.
Proof.
  intros H. unfold keepTarget.
  destruct (elems (dom st) !! n) as [e|]; [|assumption].
  destruct (existsb (matches e) skipSelectors); [assumption|].
  destruct (negb (isElementVisible e)); [assumption|].
  destruct (bool_decide (n ∈ processedElements st)
            && bool_decide (is_Some (textCache st !! n))); [|assumption].
  pose proof (stable_getElementText st n H) as H1.
  destruct (getElementText st n) as [text st1]; simpl in H1.
  destruct (bool_decide (textCache st1 !! n = Some text)); assumption.
Qed.

Lemma stable_filterTargets l : ∀ st, P st -> P (filterTargets st l).2.
Proof.
  induction l as [|n l IH]; intros st H; simpl; [assumption|].
  pose proof (stable_keepTarget st n H) as H1.
  destruct (keepTarget st n) as [keep st1]; simpl in H1.
  specialize (IH st1 H1).
  destruct (filterTargets st1 l) as [rest st2]; assumption.
Qed.

Lemma stable_getTargetElements st root : P st -> P (getTargetElements st root).2.
Proof. apply stable_filterTargets. Qed.

Lemma stable_processElementsBatch st els : P st -> P (processElementsBatch st els).
Proof.
  intros H. unfold processElementsBatch.
  destruct els; [assumption|]. destruct (isProcessing st); stable_auto.
Qed.

Lemma stable_chunkLoop startTime rest :
  ∀ index st, P st -> P (chunkLoop isLetter startTime rest index st).2.
Proof.
  induction rest as [|element rest IH]; intros index st H; simpl; [assumption|].
  match goal with |- context [if ?b then _ else _] => destruct b end;
    [|stable_auto].
  apply IH.
  destruct (isConnected _ element);
    [apply stable_processElement|]; stable_auto.
Qed.

Lemma stable_processChunk st b : P st -> P (processChunk isLetter st b).
Proof.
  intros H. unfold processChunk.
  pose proof (stable_now P HP st H) as H1.
  destruct (performanceNow st) as [startTime st1]; simpl in H1.
  pose proof (stable_chunkLoop startTime
                (drop (currentIndex b) (elements b)) (currentIndex b) st1 H1) as H2.
  destruct (chunkLoop isLetter startTime _ _ st1) as [index st2]; simpl in H2.
  destruct (index <? length (elements b))%nat; stable_auto.
Qed.

Lemma stable_scanDOM st root : P st -> P (scanDOM st root).
Proof.
  intros H. unfold scanDOM.
  destruct (negb (isEnabled st) || isProcessing st); [assumption|].
  pose proof (stable_getTargetElements st root H) as H1.
  destruct (getTargetElements st root) as [els st1]; simpl in H1.
  apply stable_processElementsBatch; assumption.
Qed.

Lemma stable_handleMutations st mutations : P st -> P (handleMutations st mutations).
Proof.
  intros H. unfold handleMutations.
  destruct (negb (isEnabled st) || isProcessing st); stable_auto.
Qed.

Lemma stable_invalidate acc n : P acc.2 -> P (invalidate acc n).2.
Proof. destruct acc as [s st]; simpl; intros H. stable_auto. Qed.

Lemma stable_processMutation acc m : P acc.2 -> P (processMutation acc m).2.
Proof.
  destruct m as [added|t|t]; simpl;
    [| destruct t as [n|[p|]]; auto using stable_invalidate
     | destruct t as [n|[p|]]; auto using stable_invalidate ].
  revert acc. induction added as [|a added IH]; intros acc H; simpl; [assumption|].
  apply IH. destruct a as [n|]; [|assumption].
  destruct acc as [s st]; simpl in H.
  pose proof (stable_getTargetElements st (RElement n) H) as H1.
  destruct (getTargetElements st (RElement n)) as [children st1]; assumption.
Qed.

Lemma stable_affectedElements mutations :
  ∀ acc, P acc.2 -> P (fold_left processMutation mutations acc).2.
Proof.
  induction mutations as [|m mutations IH]; intros acc H; simpl; [assumption|].
  apply IH, stable_processMutation, H.
Qed.

Lemma stable_processMutations st mutations : P st -> P (processMutations st mutations).
Proof.
  intros H. unfold processMutations, affectedElements.
  pose proof (stable_affectedElements mutations ([], st) H) as H1.
  destruct (fold_left processMutation mutations ([], st)) as [s st1]; simpl in H1.
  destruct s; [assumption|]. apply stable_processElementsBatch; assumption.
Qed.

Lemma stable_disable st : P st -> P (disable st).
Proof. intros H. unfold disable. stable_auto. Qed.

Lemma stable_enable st : P st -> P (enable st).
Proof. intros H. apply stable_scanDOM. stable_auto. Qed.

Lemma stable_timerFires st : P st -> P (timerFires st).
Proof.
  intros H. unfold timerFires.
  destruct (debounceTimer st); [|assumption].
  apply stable_processMutations. stable_auto.
Qed.

Lemma stable_fold_processChunk l :
  ∀ st, P st -> P (fold_left (processChunk isLetter) l st).
Proof.
  induction l as [|b l IH]; intros st H; simpl; [assumption|].
  apply IH, stable_processChunk, H.
Qed.

Lemma stable_animationFrame st : P st -> P (animationFrame isLetter st).
Proof.
  intros H. apply stable_fold_processChunk. stable_auto.
Qed.

Lemma stable_step st ev : pageKeeps P ev -> P st -> P (step isLetter st ev).
Proof.
  intros Hev H. destruct ev; simpl in *;
    auto using stable_animationFrame, stable_timerFires, stable_handleMutations,
      stable_enable, stable_disable, stable_scanDOM.
Qed.

Lemma stable_run evs :
  ∀ st, Forall (pageKeeps P) evs -> P st -> P (run isLetter st evs).
Proof.
  induction evs as [|ev evs IH]; intros st Hevs H; simpl; [assumption|].
  inversion Hevs; subst. apply IH; [assumption|]. apply stable_step; assumption.
Qed.

End StableFacts.

(** ** The configuration *)

Lemma config_fold_remove l : ∀ st, config (fold_left removeRTLStyles l st) = config st.
Proof.
  induction l as [|n l IH]; intros st; simpl; [reflexivity|].
  rewrite IH. unfold removeRTLStyles. destruct (elems (dom st) !! n); reflexivity.
Qed.

Lemma config_stable (c : gmap string Value) : Stable (fun st => config st = c).
Proof.
  constructor; try (intros; simpl; assumption).
  - intros st n r H. unfold applyRTLStyles.
    destruct (elems (dom st) !! n) as [e|]; [|assumption].
    destruct (hasLtrOverride e); [assumption|].
    destruct (sameRatioApplied e r); assumption.
  - intros st H. unfold removeAllRTLStyles. rewrite config_fold_remove. assumption.
Qed.

Lemma makeConfig_threshold_default (options : gmap string Value) :
  options !! "arabicThreshold" = None ->
  prop (makeConfig options) "arabicThreshold" = VNum (3 # 10).
Proof.
  intros H. unfold makeConfig, prop.
  rewrite lookup_union_r by assumption.
  rewrite lookup_insert_eq, H. reflexivity.
Qed.

Lemma makeConfig_threshold_given (options : gmap string Value) (v : Value) :
  options !! "arabicThreshold" = Some v ->
  prop (makeConfig options) "arabicThreshold" = v.
Proof.
  intros H. unfold prop, makeConfig.
  erewrite lookup_union_Some_l by eassumption. reflexivity.
Qed.

(** C9: the effective threshold is 0.3 when the options do not give one, it
    is the number the caller gives otherwise (0 included), and no event
    changes the configuration of an instance. *)
Theorem configured_threshold (isLetter : N -> bool)
    (options : gmap string Value) (d : Dom) (clk : nat -> Q) :
  prop (config (newCorrector (delete "arabicThreshold" options) d clk))
    "arabicThreshold" = VNum (3 # 10)
  ∧ (∀ v, prop (config (newCorrector (<["arabicThreshold" := VNum v]> options) d clk))
            "arabicThreshold" = VNum v)
  ∧ (∀ st evs, config (run isLetter st evs) = config st).
Proof.
  split; [|split].
  - apply makeConfig_threshold_default, lookup_delete_eq.
  - intros v. apply makeConfig_threshold_given, lookup_insert_eq.
  - intros st evs.
    apply (stable_run isLetter _ (config_stable (config st))); [|reflexivity].
    apply Forall_forall. intros [] _; simpl; auto.
Qed.

(** ** Short texts *)

(** C10: when the trimmed text of a node has fewer than 3 code units,
    processing the node writes at most the text cache: the document, hence
    every style and attribute, and the processed set are unchanged, and the
    outcome does not depend on the classifier. *)
Theorem processElement_short_text (isLetter : N -> bool) (st : State) (n : node) :
  (length (trim (getElementText st n).1) < 3)%nat ->
  dom (processElement isLetter st n) = dom st
  ∧ processedElements (processElement isLetter st n) = processedElements st
  ∧ (processElement isLetter st n = st
     ∨ processElement isLetter st n = (getElementText st n).2)
  ∧ (∀ other, processElement other st n = processElement isLetter st n).
Proof.
  intros Hshort. unfold processElement.
  destruct (elems (dom st) !! n) as [e|] eqn:He; [|auto].
  destruct (negb (isConnected (dom st) n)); [auto|].
  assert (Hdom : dom (getElementText st n).2 = dom st
                 ∧ processedElements (getElementText st n).2 = processedElements st).
  { unfold getElementText. rewrite He. auto. }
  destruct (getElementText st n) as [text st1]; simpl in *.
  destruct Hdom as [Hd Hp].
  destruct text as [|c text]; [auto|].
  apply Nat.ltb_lt in Hshort. rewrite Hshort. auto.
Qed.

Lemma processElement_short_text_witness :
  let st := newCorrector ∅ shortPage steadyClock in
  (length (trim (getElementText st 1).1) < 3)%nat
  ∧ dom (processElement sampleLetter st 1) = dom st
  ∧ styled (dom (processElement sampleLetter st 1)) 1 = false.
Proof.
  intros st.
  assert (H : (length (trim (getElementText st 1).1) < 3)%nat)
    by (vm_compute; lia).
  destruct (processElement_short_text sampleLetter st 1 H) as (Hd & _).
  split; [exact H|]. split; [exact Hd|]. rewrite Hd. vm_compute. reflexivity.
Defined.

(** ** The left-to-right override *)

Lemma presentation_setElement st k e n :
  k ≠ n -> presentation (dom (setElement st k e)) n = presentation (dom st) n.
Proof.
  intros Hne. unfold presentation, setElement; simpl.
  rewrite lookup_insert_ne by assumption. reflexivity.
Qed.

Lemma presentation_removeRTLStyles st k n :
  k ≠ n -> presentation (dom (removeRTLStyles st k)) n = presentation (dom st) n.
Proof.
  intros Hne. unfold removeRTLStyles.
  destruct (elems (dom st) !! k) as [e|]; [|reflexivity].
  simpl. unfold presentation; simpl.
  rewrite lookup_insert_ne by assumption. reflexivity.
Qed.

Lemma presentation_fold_remove n l :
  ∀ st, n ∉ l ->
  presentation (dom (fold_left removeRTLStyles l st)) n = presentation (dom st) n.
Proof.
  induction l as [|k l IH]; intros st Hn; simpl; [reflexivity|].
  apply not_elem_of_cons in Hn as [Hne Hn].
  rewrite IH by assumption. apply presentation_removeRTLStyles. congruence.
Qed.

(** The marker is compared as written. *)
Lemma matches_marker (e : Element) :
  existsb (matches e) [[SAttr "data-rtl-applied" "true"]]
  = bool_decide (attributes e !! "data-rtl-applied" = Some "true"%string).
Proof.
  cbn [existsb matches forallb matchesSimple]. rewrite orb_false_r, andb_true_r.
  destruct (attributes e !! "data-rtl-applied") as [w|]; [|reflexivity].
  change (attributeMatches "data-rtl-applied" "true" w) with (String.eqb w "true").
  destruct (String.eqb_spec w "true") as [->|Hne].
  - symmetry. apply bool_decide_eq_true_2. reflexivity.
  - symmetry. apply bool_decide_eq_false_2. congruence.
Qed.

(** The query of [removeAllRTLStyles] returns the styled nodes of the
    document. *)
Lemma elem_of_marked_query d n :
  n ∈ querySelectorAll d RDocument [[SAttr "data-rtl-applied" "true"]]
  ↔ n ∈ forestNodes (documentTree d) ∧ styled d n = true.
Proof.
  unfold querySelectorAll, styled, attributeOf.
  rewrite list_elem_of_In, filter_In, <- list_elem_of_In.
  destruct (elems d !! n) as [e|]; cbn [descendantsOf fmap option_fmap option_map mbind option_bind].
  - rewrite matches_marker. reflexivity.
  - split; intros [_ H]; discriminate.
Qed.

Lemma presentation_stable n a s :
  ltrDirection a = true -> a !! "data-rtl-applied" ≠ Some "true"%string ->
  Stable (fun st => presentation (dom st) n = Some (a, s)).
Proof.
  intros Hltr Hmark.
  constructor; try (intros; simpl; assumption).
  - intros st k r H. unfold applyRTLStyles.
    destruct (elems (dom st) !! k) as [e|] eqn:He; [|assumption].
    destruct (decide (k = n)) as [->|Hne].
    + unfold presentation in H. rewrite He in H. simpl in H.
      injection H as Ha Hs. unfold hasLtrOverride. rewrite Ha, Hltr.
      unfold presentation. rewrite He. simpl. congruence.
    + destruct (hasLtrOverride e); [assumption|].
      destruct (sameRatioApplied e r); [assumption|].
      rewrite presentation_setElement; assumption.
  - intros st H. unfold removeAllRTLStyles.
    rewrite presentation_fold_remove; [assumption|].
    rewrite elem_of_marked_query. intros [_ Hst].
    unfold styled, attributeOf, presentation in *.
    destruct (elems (dom st) !! n) as [e|]; simpl in *; [|discriminate].
    apply bool_decide_eq_true in Hst. congruence.
Qed.

Lemma setTextOf_keeps k t n d : presentation (setTextOf k t d) n = presentation d n.
Proof.
  unfold presentation, setTextOf; simpl.
  destruct (decide (k = n)) as [->|Hne].
  - rewrite lookup_alter_eq. destruct (elems d !! n); reflexivity.
  - rewrite lookup_alter_ne by assumption. reflexivity.
Qed.

(** C6: on a node with an explicit left-to-right direction, [applyRTLStyles]
    changes nothing for any ratio; and if the node is not styled to begin
    with, it keeps its attributes and inline style, and so stays unstyled,
    through every sequence of scans, frames, timers, commands and page edits
    that leave its attributes and style alone. *)
Theorem ltr_override_never_styled (isLetter : N -> bool)
    (st : State) (n : node) (e : Element) (evs : list Event) :
  elems (dom st) !! n = Some e ->
  hasLtrOverride e = true ->
  styled (dom st) n = false ->
  Forall (keepsPresentation n) evs ->
  (∀ ratio, applyRTLStyles st n ratio = st)
  ∧ presentation (dom (run isLetter st evs)) n = Some (attributes e, style e)
  ∧ styled (dom (run isLetter st evs)) n = false.
Proof.
  intros He Hltr Hun Hevs.
  assert (Hmark : attributes e !! "data-rtl-applied" ≠ Some "true"%string).
  { unfold styled, attributeOf in Hun. rewrite He in Hun.
    apply bool_decide_eq_false in Hun. assumption. }
  assert (Hrun : presentation (dom (run isLetter st evs)) n
                 = Some (attributes e, style e)).
  { apply (stable_run isLetter _
             (presentation_stable n (attributes e) (style e) Hltr Hmark)).
    - eapply Forall_impl; [exact Hevs|].
      intros [] Hk; simpl in *; auto.
      intros st' H'. rewrite Hk. assumption.
    - unfold presentation. rewrite He. reflexivity. }
  split; [|split; [exact Hrun|]].
  - intros ratio. unfold applyRTLStyles. rewrite He, Hltr. reflexivity.
  - unfold styled, attributeOf. unfold presentation in Hrun.
    destruct (elems (dom (run isLetter st evs)) !! n) as [e'|]; simpl in *;
      [|reflexivity].
    injection Hrun as Ha _. rewrite Ha. apply bool_decide_eq_false. assumption.
Qed.

Lemma ltr_override_never_styled_witness :
  let st := newCorrector ∅ ltrPage steadyClock in
  let evs := [Scan RDocument; AnimationFrame;
              PageChange (setTextOf 1 (arabicWord ++ arabicWord));
              MutationsObserved [CharacterData (TargetElement 1)];
              TimerFires; AnimationFrame; Disable; Enable; AnimationFrame] in
  hasLtrOverride (elementWith (plainElement "P" arabicWord) "dir" "LTR") = true
  ∧ styled (dom st) 1 = false
  ∧ styled (dom (run sampleLetter st evs)) 1 = false.
Proof.
  intros st evs.
  split; [vm_compute; reflexivity|]. split; [vm_compute; reflexivity|].
  refine (proj2 (proj2 (ltr_override_never_styled sampleLetter st 1
            (elementWith (plainElement "P" arabicWord) "dir" "LTR") evs
            _ _ _ _))).
  - vm_compute. reflexivity.
  - vm_compute. reflexivity.
  - vm_compute. reflexivity.
  - repeat constructor. intros d. apply setTextOf_keeps.
Defined.

(** ** The decision of [processElement] *)

Lemma Qltb_lt (a b : Q) : Qltb a b = true ↔ (a < b)%Q.
Proof.
  unfold Qltb. rewrite negb_true_iff, <- not_true_iff_false, Qle_bool_iff.
  split; [apply Qnot_le_lt | apply Qlt_not_le].
Qed.

Lemma styled_setElement st n e :
  styled (dom (setElement st n e)) n
  = bool_decide (attributes e !! "data-rtl-applied" = Some "true"%string).
Proof.
  unfold styled, attributeOf, setElement; simpl.
  rewrite lookup_insert_eq. reflexivity.
Qed.

Lemma styledElement_marker cfg e r :
  attributes (styledElement cfg e r) !! "data-rtl-applied" = Some "true"%string.
Proof.
  unfold styledElement; simpl.
  rewrite lookup_insert_ne by discriminate. apply lookup_insert_eq.
Qed.

Lemma styledElement_ratio cfg e r :
  attributes (styledElement cfg e r) !! "data-arabic-ratio" = Some (toFixed2 r).
Proof. unfold styledElement; simpl. apply lookup_insert_eq. Qed.

(** On a node without override and without a recorded ratio,
    [applyRTLStyles] writes. *)
Lemma applyRTLStyles_fresh st n e r :
  elems (dom st) !! n = Some e ->
  hasLtrOverride e = false -> sameRatioApplied e r = false ->
  applyRTLStyles st n r = setElement st n (styledElement (config st) e r).
Proof.
  intros He Hltr Hsame. unfold applyRTLStyles. rewrite He, Hltr, Hsame. reflexivity.
Qed.




(** ** Re-applying a ratio *)

(** *** The rounding to the nearest double *)

Lemma roundHalfEven_error (y : Q) : (Qabs (inject_Z (roundHalfEven y) - y) <= 1 # 2)%Q.
Proof.
  unfold roundHalfEven.
  pose proof (Qfloor_le y) as Hlo. pose proof (Qlt_floor y) as Hhi.
  rewrite inject_Z_plus in Hhi. change (inject_Z 1) with 1%Q in Hhi.
  set (f := Qfloor y) in *.
  destruct (y - inject_Z f ?= 1 # 2)%Q eqn:Hc.
  - apply Qeq_alt in Hc. destruct (Z.even f).
    + apply Qabs_Qle_condition. generalize dependent (inject_Z f).
      intros z; intros. split; lra.
    + rewrite inject_Z_plus. change (inject_Z 1) with 1%Q.
      apply Qabs_Qle_condition. generalize dependent (inject_Z f).
      intros z; intros. split; lra.
  - apply Qlt_alt in Hc. apply Qabs_Qle_condition.
    generalize dependent (inject_Z f). intros z; intros. split; lra.
  - apply Qgt_alt in Hc. rewrite inject_Z_plus. change (inject_Z 1) with 1%Q.
    apply Qabs_Qle_condition. generalize dependent (inject_Z f).
    intros z; intros. split; lra.
Qed.

Lemma pow2_pos (e : Z) : (0 < pow2 e)%Q.
Proof.
  unfold pow2. destruct (0 <=? e)%Z eqn:He.
  - apply Z.leb_le in He. change 0%Q with (inject_Z 0). rewrite <- Zlt_Qlt.
    apply Z.pow_pos_nonneg; lia.
  - reflexivity.
Qed.

Lemma pow2_le_neg (e : Z) : (e <= -51)%Z -> (pow2 e <= 1 # 2 ^ 51)%Q.
Proof.
  intros He. unfold pow2.
  replace (0 <=? e)%Z with false by (symmetry; apply Z.leb_gt; lia).
  unfold Qle; simpl.
  assert (H : (2 ^ 51 <= 2 ^ (- e))%Z) by (apply Z.pow_le_mono_r; lia).
  assert (Hp : (0 < 2 ^ (- e))%Z) by (apply Z.pow_pos_nonneg; lia).
  rewrite Z2Pos.id by assumption. change (Z.pos (2 ^ 51)) with (2 ^ 51)%Z. lia.
Qed.

(** Whatever the exponent, the rounding moves a number by at most half the
    weight of the last bit. *)
Lemma nearestDouble_error (x : Q) (e : Z) :
  (Qabs (inject_Z (roundHalfEven (x / pow2 e)) * pow2 e - x) <= pow2 e * (1 # 2))%Q.
Proof.
  pose proof (pow2_pos e) as Hp.
  pose proof (roundHalfEven_error (x / pow2 e)) as Herr.
  assert (Hx : (x / pow2 e * pow2 e == x)%Q) by (field; lra).
  set (m := inject_Z (roundHalfEven (x / pow2 e))) in *.
  set (y := (x / pow2 e)%Q) in *.
  apply Qabs_Qle_condition in Herr as [H1 H2].
  assert (Ha : ((m - y) * pow2 e <= (1 # 2) * pow2 e)%Q)
    by (apply Qmult_le_compat_r; lra).
  assert (Hb : ((- (1 # 2)) * pow2 e <= (m - y) * pow2 e)%Q)
    by (apply Qmult_le_compat_r; lra).
  apply Qabs_Qle_condition. generalize dependent (pow2 e). intros p Hp Hx Ha Hb.
  split; lra.
Qed.

Lemma binaryExponent_unit (x : Q) :
  (0 < x)%Q -> (x <= 1)%Q -> (binaryExponent x <= -51)%Z.
Proof.
  intros H0 H1. unfold binaryExponent.
  destruct x as [n d]. unfold Qlt, Qle in H0, H1; simpl in H0, H1.
  cbn [Qnum Qden].
  assert (Hl : (Z.log2 n <= Z.log2 (Z.pos d))%Z) by (apply Z.log2_le_mono; lia).
  set (e0 := (Z.log2 n - Z.log2 (Z.pos d) - 52)%Z) in *.
  assert (He : (e0 <= -52)%Z) by (unfold e0; lia).
  clearbody e0.
  destruct (Qle_bool _ _); [|destruct (Qle_bool _ _)]; lia.
Qed.

Lemma nearestDouble_unit (x : Q) :
  (0 < x)%Q -> (x <= 1)%Q -> (Qabs (nearestDouble x - x) <= unitError)%Q.
Proof.
  intros H0 H1. unfold nearestDouble.
  eapply Qle_trans; [apply nearestDouble_error|].
  pose proof (pow2_le_neg _ (binaryExponent_unit x H0 H1)) as Hp.
  unfold unitError. change (1 # 2 ^ 52)%Q with ((1 # 2 ^ 51) * (1 # 2))%Q.
  generalize dependent (pow2 (binaryExponent x)). intros p Hp. lra.
Qed.

Lemma toDouble_Qeq (x y : Q) : (x == y)%Q -> toDouble x = toDouble y.
Proof. intros H. unfold toDouble. rewrite (Qred_complete _ _ H). reflexivity. Qed.

(** Between 0 and 1 the double is within [unitError] of the number. *)
Lemma toDouble_unit (x : Q) :
  (0 <= x)%Q -> (x <= 1)%Q -> (Qabs (toDouble x - x) <= unitError)%Q.
Proof.
  intros H0 H1. unfold toDouble.
  pose proof (Qred_correct x) as Hr.
  destruct (Qnum (Qred x)) eqn:Hn.
  - assert (Hz : (Qred x == 0)%Q) by (unfold Qeq; rewrite Hn; reflexivity).
    rewrite Hr in Hz. apply Qabs_Qle_condition. unfold unitError.
    change (2 ^ 52)%positive with 4503599627370496%positive. split; lra.
  - rewrite <- Hr at 2. apply nearestDouble_unit.
    + unfold Qlt. rewrite Hn. simpl. lia.
    + rewrite Hr. exact H1.
  - exfalso. assert (Hneg : (Qred x < 0)%Q) by (unfold Qlt; rewrite Hn; simpl; lia).
    rewrite Hr in Hneg. lra.
Qed.

Lemma toDouble_nonneg (x : Q) : (0 <= x)%Q -> (0 <= toDouble x)%Q.
Proof.
  intros H0. unfold toDouble. pose proof (Qred_correct x) as Hr.
  assert (Hq : (0 <= Qred x)%Q) by (rewrite Hr; exact H0).
  destruct (Qnum (Qred x)) eqn:Hn.
  - lra.
  - unfold nearestDouble. apply Qmult_le_0_compat; [|apply Qlt_le_weak, pow2_pos].
    change 0%Q with (inject_Z 0). rewrite <- Zle_Qle.
    assert (Hy : (0 <= Qred x / pow2 (binaryExponent (Qred x)))%Q).
    { apply Qle_shift_div_l; [apply pow2_pos|]. rewrite Qmult_0_l. exact Hq. }
    unfold roundHalfEven.
    assert (Hf : (0 <= Qfloor (Qred x / pow2 (binaryExponent (Qred x))))%Z).
    { change 0%Z with (Qfloor 0). apply Qfloor_resp_le. exact Hy. }
    destruct (_ ?= _)%Q; [destruct (Z.even _)|..]; lia.
  - exfalso. assert (Hneg : (Qred x < 0)%Q) by (unfold Qlt; rewrite Hn; simpl; lia).
    rewrite Hr in Hneg. lra.
Qed.

(** The same bounds in the form the arithmetic below uses. *)
Lemma toDouble_bounds (x : Q) :
  (0 <= x)%Q -> (x <= 1)%Q ->
  (0 <= toDouble x)%Q ∧ (x - (1 # 4503599627370496) <= toDouble x)%Q
  ∧ (toDouble x <= x + (1 # 4503599627370496))%Q.
Proof.
  intros H0 H1. split; [apply toDouble_nonneg, H0|].
  pose proof (toDouble_unit x H0 H1) as H.
  apply Qabs_Qle_condition in H as [Hlo Hhi].
  unfold unitError in Hlo, Hhi.
  change (2 ^ 52)%positive with 4503599627370496%positive in Hlo, Hhi.
  split; lra.
Qed.

(** *** What is written and what is read back *)

Lemma readsBack_all : forallb readsBack (seq 0 101) = true.
Proof. vm_compute. reflexivity. Qed.

Lemma parseFloat_fixedDigits (n : Z) :
  (0 <= n <= 100)%Z ->
  ∃ q, parseFloat (fixedDigits n) = Finite q ∧ (q == toDouble (n # 100))%Q
       ∧ fixedDigits n ≠ EmptyString.
Proof.
  intros Hn.
  pose proof (proj1 (forallb_forall readsBack (seq 0 101)) readsBack_all
                (Z.to_nat n)) as H.
  assert (Hin : In (Z.to_nat n) (seq 0 101)) by (apply in_seq; lia).
  specialize (H Hin). unfold readsBack in H. rewrite Z2Nat.id in H by lia.
  destruct (parseFloat (fixedDigits n)) as [| |q]; try discriminate.
  apply andb_prop in H as [Hq Hne].
  exists q. split; [reflexivity|]. split; [apply Qeq_bool_iff, Hq|].
  intros Heq. rewrite Heq in Hne. discriminate.
Qed.

Lemma hundredths_bounds (r : Q) :
  (0 <= r <= 1)%Q -> (0 <= Qfloor (toDouble r * 100 + (1 # 2)) <= 100)%Z.
Proof.
  intros [H0 H1]. destruct (toDouble_bounds r H0 H1) as (Hd0 & _ & Hd1). split.
  - change 0%Z with (Qfloor 0). apply Qfloor_resp_le. lra.
  - assert (H : (Qfloor (toDouble r * 100 + (1 # 2)) < 101)%Z); [|lia].
    rewrite Zlt_Qlt. eapply Qle_lt_trans; [apply Qfloor_le|].
    change (inject_Z 101) with (101 # 1)%Q. lra.
Qed.

(** The number written for a ratio is a number of hundredths between 0 and
    1, at most half a hundredth and a rounding error away from the ratio. *)
Lemma round2_close (r : Q) :
  (0 <= r <= 1)%Q ->
  (0 <= round2 r <= 1)%Q
  ∧ (Qabs (round2 r - r) <= (1 # 200) + (1 # 4503599627370496))%Q.
Proof.
  intros Hr. pose proof (hundredths_bounds r Hr) as Hk.
  destruct Hr as [H0 H1]. destruct (toDouble_bounds r H0 H1) as (Hd0 & Hlo' & Hhi').
  unfold round2.
  pose proof (Qfloor_le (toDouble r * 100 + (1 # 2))) as Hlo.
  pose proof (Qlt_floor (toDouble r * 100 + (1 # 2))) as Hhi.
  set (n := Qfloor (toDouble r * 100 + (1 # 2))) in *.
  assert (Hn : (n # 100 == inject_Z n * (1 # 100))%Q)
    by (unfold Qeq; simpl; lia).
  rewrite inject_Z_plus in Hhi. change (inject_Z 1) with 1%Q in Hhi.
  assert (Hn0 : (0 <= inject_Z n)%Q)
    by (change 0%Q with (inject_Z 0); rewrite <- Zle_Qle; lia).
  assert (Hn1 : (inject_Z n <= 100)%Q)
    by (change 100%Q with (inject_Z 100); rewrite <- Zle_Qle; lia).
  rewrite Hn. clearbody n. generalize dependent (inject_Z n).
  generalize dependent (toDouble r). intros d Hd0 Hdlo Hdhi z Hlo Hhi _ Hz0 Hz1.
  split; [split; lra|]. apply Qabs_Qle_condition. split; lra.
Qed.

Lemma toFixed2_ratio (r : Q) :
  (0 <= r <= 1)%Q ->
  ∃ q, parseFloat (toFixed2 r) = Finite q ∧ (q == toDouble (round2 r))%Q
       ∧ toFixed2 r ≠ EmptyString.
Proof.
  intros Hr. unfold toFixed2, round2.
  pose proof (toDouble_nonneg r (proj1 Hr)) as Hd.
  replace (Qltb (toDouble r) 0) with false
    by (symmetry; apply not_true_iff_false; rewrite Qltb_lt; apply Qle_not_lt, Hd).
  assert (Habs : Qfloor (Qabs (toDouble r) * 100 + (1 # 2))
                 = Qfloor (toDouble r * 100 + (1 # 2))).
  { apply Qfloor_comp. rewrite Qabs_pos by exact Hd. reflexivity. }
  rewrite Habs. apply parseFloat_fixedDigits, hundredths_bounds, Hr.
Qed.

(** The guard of [applyRTLStyles] on an element that carries the ratio
    written for [r1]: it holds for every ratio that is at most 0.0099 away
    from the decimal number written.  (The guard compares doubles, and the
    double of the number written, that of the new ratio, their difference
    and the double of a hundredth each carry a rounding error.) *)
Lemma sameRatioApplied_written (e : Element) (r1 r2 : Q) :
  (0 <= r1 <= 1)%Q -> (0 <= r2 <= 1)%Q ->
  attributes e !! "data-arabic-ratio" = Some (toFixed2 r1) ->
  (Qabs (round2 r1 - r2) <= 99 # 10000)%Q ->
  sameRatioApplied e r2 = true.
Proof.
  intros Hr1 Hr2 Hattr Hnear. unfold sameRatioApplied. rewrite Hattr.
  destruct (toFixed2_ratio r1 Hr1) as (q & Hparse & Hq & Hne).
  rewrite Hparse. apply String.eqb_neq in Hne. rewrite Hne.
  unfold withinHundredth. cbn [negb andb]. apply Qltb_lt.
  destruct (round2_close r1 Hr1) as [[Hw0 Hw1] _].
  destruct (toDouble_bounds (round2 r1) Hw0 Hw1) as (_ & Hplo & Hphi).
  destruct Hr2 as [H20 H21].
  destruct (toDouble_bounds r2 H20 H21) as (_ & Hdlo & Hdhi).
  assert (Hc : ((1 # 100) - (1 # 4503599627370496) <= toDouble (1 # 100))%Q).
  { apply (toDouble_bounds (1 # 100)); unfold Qle; simpl; lia. }
  apply Qabs_Qle_condition in Hnear as [Hn1 Hn2].
  assert (Hy : (Qabs (q - toDouble r2) <= (99 # 10000) + (2 # 4503599627370496))%Q).
  { apply Qabs_Qle_condition. rewrite Hq.
    generalize dependent (toDouble (round2 r1)). generalize dependent (toDouble r2).
    intros; split; lra. }
  pose proof (Qabs_nonneg (q - toDouble r2)) as Hy0.
  assert (Hy1 : (Qabs (q - toDouble r2) <= 1)%Q) by lra.
  destruct (toDouble_bounds _ Hy0 Hy1) as (_ & _ & Hyhi).
  generalize dependent (toDouble (Qabs (q - toDouble r2))).
  generalize dependent (toDouble (1 # 100)). intros; lra.
Qed.

Lemma sameRatioApplied_Qeq (e : Element) (r1 r2 : Q) :
  (r2 == r1)%Q -> sameRatioApplied e r2 = sameRatioApplied e r1.
Proof.
  intros Heq. unfold sameRatioApplied, withinHundredth.
  rewrite (toDouble_Qeq r2 r1 Heq). reflexivity.
Qed.

(** C8, as the script behaves: after an application with ratio [r1], a
    second application with ratio [r2] changes nothing when the two ratios
    are equal, and when the first application wrote the node and [r2] is at
    most 0.0099 away from the two-decimal number the node records for [r1],
    which is the case when [r2] is at most 0.004 away from [r1]. *)
Theorem applyRTLStyles_repeated (st : State) (n : node) (r1 r2 : Q) :
  (0 <= r1 <= 1)%Q -> (0 <= r2 <= 1)%Q ->
  (r2 == r1)%Q
  ∨ (∃ e, elems (dom st) !! n = Some e ∧ hasLtrOverride e = false
          ∧ sameRatioApplied e r1 = false
          ∧ ((Qabs (round2 r1 - r2) <= 99 # 10000)%Q
             ∨ (Qabs (r1 - r2) <= 1 # 250)%Q)) ->
  applyRTLStyles (applyRTLStyles st n r1) n r2 = applyRTLStyles st n r1.
Proof.
  intros Hr1 Hr2 Hcase.
  assert (Hnear : ∀ r, (r == r1)%Q ∨ (Qabs (r1 - r) <= 1 # 250)%Q ->
            (Qabs (round2 r1 - r) <= 99 # 10000)%Q).
  { intros r Hclose. destruct (round2_close r1 Hr1) as [_ Hw].
    apply Qabs_Qle_condition in Hw as [Hw1 Hw2]. apply Qabs_Qle_condition.
    destruct Hclose as [Heq|Hclose].
    - rewrite Heq. split; lra.
    - apply Qabs_Qle_condition in Hclose as [Hc1 Hc2]. split; lra. }
  assert (Hwrote : ∀ e, elems (dom st) !! n = Some e -> hasLtrOverride e = false ->
            sameRatioApplied e r1 = false ->
            (Qabs (round2 r1 - r2) <= 99 # 10000)%Q ->
            applyRTLStyles (applyRTLStyles st n r1) n r2 = applyRTLStyles st n r1).
  { intros e He Hltr Hsame Hclose.
    rewrite (applyRTLStyles_fresh st n e r1 He Hltr Hsame).
    set (e1 := styledElement (config st) e r1).
    unfold applyRTLStyles at 1.
    replace (elems (dom (setElement st n e1)) !! n) with (Some e1)
      by (symmetry; apply lookup_insert_eq).
    destruct (hasLtrOverride e1); [reflexivity|].
    replace (sameRatioApplied e1 r2) with true; [reflexivity|].
    symmetry. apply (sameRatioApplied_written e1 r1 r2 Hr1 Hr2); [|exact Hclose].
    apply styledElement_ratio. }
  destruct (elems (dom st) !! n) as [e|] eqn:He.
  - destruct (hasLtrOverride e) eqn:Hltr.
    + unfold applyRTLStyles. rewrite He, Hltr, He, Hltr. reflexivity.
    + destruct (sameRatioApplied e r1) eqn:Hsame.
      * destruct Hcase as [Heq|(e' & He' & _ & Hsame' & _)]; [|congruence].
        unfold applyRTLStyles. rewrite He, Hltr, Hsame, He, Hltr.
        rewrite (sameRatioApplied_Qeq e r1 r2 Heq), Hsame. reflexivity.
      * apply (Hwrote e eq_refl Hltr Hsame).
        destruct Hcase as [Heq|(e' & _ & _ & _ & [Hclose|Hclose])].
        -- apply Hnear. left. exact Heq.
        -- exact Hclose.
        -- apply Hnear. right. exact Hclose.
  - unfold applyRTLStyles. rewrite He, He. reflexivity.
Qed.

Lemma applyRTLStyles_repeated_witness :
  let st := newCorrector ∅ twoParagraphs steadyClock in
  let r1 := (3 # 40)%Q in
  let r2 := (79 # 1000)%Q in
  ((0 <= r1 <= 1)%Q ∧ (0 <= r2 <= 1)%Q)
  ∧ toFixed2 r1 = "0.07"%string
  ∧ (Qabs (round2 r1 - r2) <= 99 # 10000)%Q
  ∧ applyRTLStyles (applyRTLStyles st 1 r1) 1 r2 = applyRTLStyles st 1 r1.
Proof.
  intros st r1 r2.
  assert (Hr1 : (0 <= r1 <= 1)%Q) by (split; unfold Qle; simpl; lia).
  assert (Hr2 : (0 <= r2 <= 1)%Q) by (split; unfold Qle; simpl; lia).
  assert (Hclose : (Qabs (round2 r1 - r2) <= 99 # 10000)%Q)
    by (vm_compute; discriminate).
  split; [exact (conj Hr1 Hr2)|]. split; [vm_compute; reflexivity|].
  split; [exact Hclose|].
  apply (applyRTLStyles_repeated st 1 r1 r2 Hr1 Hr2).
  right. exists (plainElement "P" arabicWord).
  split; [vm_compute; reflexivity|]. split; [vm_compute; reflexivity|].
  split; [vm_compute; reflexivity|]. left. exact Hclose.
Defined.

(** C8 as stated fails: 0.504 and 0.512 differ by less than 0.01, yet the
    second application rewrites the node, because it compares 0.512 with the
    recorded "0.50". *)
Lemma close_ratios_rewrite_node :
  let st := newCorrector ∅ twoParagraphs steadyClock in
  let r1 := (63 # 125)%Q in
  let r2 := (64 # 125)%Q in
  let st1 := applyRTLStyles st 1 r1 in
  let st2 := applyRTLStyles st1 1 r2 in
  (Qabs (r1 - r2) < 1 # 100)%Q
  ∧ attributeOf (dom st1) 1 "data-arabic-ratio" = Some "0.50"%string
  ∧ attributeOf (dom st2) 1 "data-arabic-ratio" = Some "0.51"%string
  ∧ st2 ≠ st1.
Proof.
  intros st r1 r2 st1 st2.
  assert (H1 : attributeOf (dom st1) 1 "data-arabic-ratio" = Some "0.50"%string)
    by (vm_compute; reflexivity).
  assert (H2 : attributeOf (dom st2) 1 "data-arabic-ratio" = Some "0.51"%string)
    by (vm_compute; reflexivity).
  split; [vm_compute; reflexivity|]. split; [exact H1|]. split; [exact H2|].
  intros Heq. rewrite Heq, H1 in H2. clear Heq. discriminate H2.
Qed.

(** ** Debouncing *)

Lemma handleMutations_accepted st mutations :
  isEnabled st = true -> isProcessing st = false ->
  handleMutations st mutations = setDebounceTimer st (Some mutations).
Proof. intros He Hp. unfold handleMutations. rewrite He, Hp. reflexivity. Qed.

Lemma handleMutations_burst batches :
  ∀ st last, isEnabled st = true -> isProcessing st = false ->
  fold_left handleMutations (batches ++ [last]) st = setDebounceTimer st (Some last).
Proof.
  induction batches as [|m batches IH]; intros st last He Hp; simpl.
  - apply handleMutations_accepted; assumption.
  - rewrite (handleMutations_accepted st m He Hp).
    rewrite IH by assumption. reflexivity.
Qed.

Lemma processMutations_forwards st mutations :
  processMutations st mutations
  = processElementsBatch (affectedElements st mutations).2
      (affectedElements st mutations).1.
Proof.
  unfold processMutations.
  destruct (affectedElements st mutations) as [[|n l] st1]; reflexivity.
Qed.

(** C4, as the script behaves: when batches arrive in a row on an engine
    that is enabled and idle, each arrival replaces the pending timeout and
    the batch it holds; when the timeout expires, what reaches the scheduler
    is the affected set of the last batch alone. *)
Theorem debounce_forwards_last_batch
    (st : State) (batches : list (list Mutation)) (last : list Mutation) :
  isEnabled st = true -> isProcessing st = false ->
  let st' := fold_left handleMutations (batches ++ [last]) st in
  let idle := setDebounceTimer st None in
  debounceTimer st' = Some last
  ∧ timerFires st'
    = processElementsBatch (affectedElements idle last).2 (affectedElements idle last).1.
Proof.
  intros He Hp st' idle. subst st'.
  rewrite (handleMutations_burst batches st last He Hp).
  split; [reflexivity|].
  unfold timerFires. simpl. apply processMutations_forwards.
Qed.

Lemma debounce_forwards_last_batch_witness :
  let st := newCorrector ∅ twoParagraphs steadyClock in
  let first := [CharacterData (TargetElement 1)] in
  let last := [CharacterData (TargetElement 2)] in
  isEnabled st = true ∧ isProcessing st = false
  ∧ debounceTimer (fold_left handleMutations ([first] ++ [last]) st) = Some last.
Proof.
  intros st first last.
  split; [reflexivity|]. split; [reflexivity|].
  exact (proj1 (debounce_forwards_last_batch st [first] last eq_refl eq_refl)).
Defined.

(** C4 as stated fails: of two batches that arrive within one delay, the
    first naming node 1 and the second node 2, only node 2 reaches the
    scheduler, while the union of the affected sets holds both. *)
Lemma debounce_drops_earlier_batch :
  let st := newCorrector ∅ twoParagraphs steadyClock in
  let first := [CharacterData (TargetElement 1)] in
  let last := [CharacterData (TargetElement 2)] in
  let st' := run sampleLetter st
               [MutationsObserved first; MutationsObserved last; TimerFires] in
  (affectedElements st (first ++ last)).1 = [1; 2]
  ∧ map elements (animationFrames st') = [[2]].
Proof. split; vm_compute; reflexivity. Qed.

(** ** Selection of the nodes to process *)

Lemma sameMarks_refl st : sameMarks st st.
Proof. split; [reflexivity | intros k; reflexivity]. Qed.

Lemma sameMarks_trans st1 st2 st3 :
  sameMarks st1 st2 -> sameMarks st2 st3 -> sameMarks st1 st3.
Proof.
  intros [Hp1 Hc1] [Hp2 Hc2]. split; [congruence|].
  intros k. rewrite Hc2. apply Hc1.
Qed.

Lemma sameMarks_marked st st' n :
  sameMarks st st' -> markedProcessed st' n ↔ markedProcessed st n.
Proof. intros [Hp Hc]. unfold markedProcessed. rewrite Hp, Hc. reflexivity. Qed.

(** The filter of [getTargetElements] never keeps a node that is marked
    processed and has a cached text: [getElementText] has overwritten the
    cache entry by the time the callback compares the two texts. *)
Lemma keepTarget_spec st n :
  sameMarks st (keepTarget st n).2
  ∧ ((keepTarget st n).1 = true -> ¬ markedProcessed st n).
Proof.
  unfold keepTarget.
  destruct (elems (dom st) !! n) as [e|] eqn:He;
    [|split; [apply sameMarks_refl | discriminate]].
  destruct (existsb (matches e) skipSelectors);
    [split; [apply sameMarks_refl | discriminate]|].
  destruct (negb (isElementVisible e));
    [split; [apply sameMarks_refl | discriminate]|].
  destruct (bool_decide (n ∈ processedElements st)) eqn:Hp; simpl.
  - destruct (bool_decide (is_Some (textCache st !! n))) eqn:Hc; simpl.
    + unfold getElementText. rewrite He. simpl.
      rewrite lookup_insert_eq, bool_decide_eq_true_2 by reflexivity. simpl.
      split; [|discriminate]. split; [reflexivity|].
      intros k. simpl. destruct (decide (n = k)) as [<-|Hne].
      * rewrite lookup_insert_eq. apply bool_decide_eq_true in Hc.
        split; [intros _; exact Hc | intros _; eexists; reflexivity].
      * rewrite lookup_insert_ne by assumption. reflexivity.
    + split; [apply sameMarks_refl|]. intros _ [_ Hcached].
      apply bool_decide_eq_false in Hc. contradiction.
  - split; [apply sameMarks_refl|]. intros _ [Hproc _].
    apply bool_decide_eq_false in Hp. contradiction.
Qed.

Lemma filterTargets_spec l :
  ∀ st, sameMarks st (filterTargets st l).2
        ∧ (∀ n, n ∈ (filterTargets st l).1 -> ¬ markedProcessed st n).
Proof.
  induction l as [|k l IH]; intros st; simpl.
  - split; [apply sameMarks_refl|]. intros n Hn. apply elem_of_nil in Hn. destruct Hn.
  - pose proof (keepTarget_spec st k) as [Hs1 Hk].
    destruct (keepTarget st k) as [keep st1]; simpl in *.
    specialize (IH st1) as [Hs2 Hrest].
    destruct (filterTargets st1 l) as [rest st2]; simpl in *.
    split; [eapply sameMarks_trans; eassumption|].
    intros n Hn.
    assert (Hcases : (keep = true ∧ n = k) ∨ n ∈ rest).
    { destruct keep; [|right; exact Hn].
      apply elem_of_cons in Hn as [->|Hn]; [left; split; reflexivity | right; exact Hn]. }
    destruct Hcases as [[Hkeep ->]|Hin]; [apply Hk, Hkeep|].
    rewrite <- (sameMarks_marked st st1 n Hs1). apply Hrest, Hin.
Qed.

Lemma getTargetElements_spec st root :
  sameMarks st (getTargetElements st root).2
  ∧ (∀ n, n ∈ (getTargetElements st root).1 -> ¬ markedProcessed st n).
Proof. apply filterTargets_spec. Qed.

Lemma elem_of_setAdd s x n : n ∈ setAdd s x ↔ n ∈ s ∨ n = x.
Proof.
  unfold setAdd. destruct (bool_decide (x ∈ s)) eqn:Hx.
  - apply bool_decide_eq_true in Hx. split; [auto|]. intros [H| ->]; assumption.
  - rewrite elem_of_app, list_elem_of_singleton. reflexivity.
Qed.

Lemma elem_of_fold_setAdd l : ∀ s n, n ∈ fold_left setAdd l s ↔ n ∈ s ∨ n ∈ l.
Proof.
  induction l as [|x l IH]; intros s n; simpl.
  - rewrite elem_of_nil. tauto.
  - rewrite IH, elem_of_setAdd, elem_of_cons. tauto.
Qed.

Section MutationSelection.

Variable st0 : State.
Variable mutations : list Mutation.

Lemma namedBy_intro n m :
  m ∈ mutations -> namedByMutation n m = true -> namedBy mutations n = true.
Proof.
  intros Hm Hn. apply existsb_exists. exists m.
  split; [apply list_elem_of_In, Hm | exact Hn].
Qed.

Lemma selectionInv_invalidate acc n :
  namedBy mutations n = true -> selectionInv st0 mutations acc -> selectionInv st0 mutations (invalidate acc n).
Proof.
  intros Hnamed [Hmarks Hset]. destruct acc as [s st]; simpl in *.
  split; simpl.
  - intros k Hk. destruct (decide (k = n)) as [->|Hne]; [right; exact Hnamed|].
    destruct (Hmarks k Hk) as [[Hp Hc]|Hn]; [left|right; exact Hn].
    split; simpl.
    + apply elem_of_difference. split; [exact Hp|].
      rewrite elem_of_singleton. exact Hne.
    + rewrite lookup_delete_ne by congruence. exact Hc.
  - intros k Hk. apply elem_of_setAdd in Hk as [Hk| ->]; [apply Hset, Hk|].
    left. exact Hnamed.
Qed.

Lemma selectionInv_discovered s st n :
  namedBy mutations n = true ->
  selectionInv st0 mutations (s, st) ->
  selectionInv st0 mutations (fold_left setAdd (getTargetElements st (RElement n)).1 (setAdd s n),
                (getTargetElements st (RElement n)).2).
Proof.
  intros Hnamed [Hmarks Hset]; simpl in *.
  destruct (getTargetElements_spec st (RElement n)) as [Hsame Hun].
  split; simpl.
  - intros k Hk. destruct (Hmarks k Hk) as [Hm|Hn]; [left|right; exact Hn].
    apply (sameMarks_marked _ _ _ Hsame), Hm.
  - intros k Hk. apply elem_of_fold_setAdd in Hk as [Hk|Hk].
    + apply elem_of_setAdd in Hk as [Hk| ->]; [apply Hset, Hk | left; exact Hnamed].
    + destruct (namedBy mutations k) eqn:Hnk; [left; reflexivity|right].
      intros Hmarked. destruct (Hmarks k Hmarked) as [Hm|Hn]; [|congruence].
      exact (Hun k Hk Hm).
Qed.

Lemma selectionInv_processMutation acc m :
  m ∈ mutations -> selectionInv st0 mutations acc -> selectionInv st0 mutations (processMutation acc m).
Proof.
  intros Hm Hinv.
  destruct m as [added|t|t]; simpl;
    [| destruct t as [n|[p|]]; [| |exact Hinv];
       apply selectionInv_invalidate; [|exact Hinv| |exact Hinv];
       apply (namedBy_intro _ _ Hm); simpl; apply bool_decide_eq_true; reflexivity
     | destruct t as [n|[p|]]; [| |exact Hinv];
       apply selectionInv_invalidate; [|exact Hinv| |exact Hinv];
       apply (namedBy_intro _ _ Hm); simpl; apply bool_decide_eq_true; reflexivity ].
  assert (Hsub : ∀ a, a ∈ added -> a ∈ added) by auto.
  revert acc Hinv Hsub. generalize added at 1 3 as rest.
  induction rest as [|a rest IH]; intros acc Hinv Hsub; simpl; [exact Hinv|].
  apply IH; [|intros b Hb; apply Hsub; right; exact Hb].
  destruct a as [n|]; [|exact Hinv].
  destruct acc as [s st].
  pose proof (selectionInv_discovered s st n) as Hd.
  destruct (getTargetElements st (RElement n)) as [children st1]; simpl in Hd.
  apply Hd; [|exact Hinv].
  apply (namedBy_intro _ _ Hm). simpl. apply bool_decide_eq_true.
  apply Hsub. left.
Qed.

Lemma selectionInv_fold l :
  ∀ acc, (∀ m, m ∈ l -> m ∈ mutations) -> selectionInv st0 mutations acc ->
         selectionInv st0 mutations (fold_left processMutation l acc).
Proof.
  induction l as [|m l IH]; intros acc Hsub Hinv; simpl; [exact Hinv|].
  apply IH; [intros m' Hm'; apply Hsub; right; exact Hm'|].
  apply selectionInv_processMutation; [apply Hsub; left | exact Hinv].
Qed.

Lemma affectedElements_spec n :
  n ∈ (affectedElements st0 mutations).1 ->
  namedBy mutations n = true ∨ ¬ markedProcessed st0 n.
Proof.
  assert (Hinv : selectionInv st0 mutations (affectedElements st0 mutations)).
  { apply selectionInv_fold; [auto|].
    split; simpl; [intros k Hk; left; exact Hk|].
    intros k Hk. apply elem_of_nil in Hk. destruct Hk. }
  apply Hinv.
Qed.

End MutationSelection.

(** What a record names always joins the set, and the set only grows. *)
Lemma processMutation_mono acc m k :
  k ∈ acc.1 -> k ∈ (processMutation acc m).1.
Proof.
  destruct m as [added|t|t]; simpl.
  - revert acc. induction added as [|a added IH]; intros acc Hk; simpl; [exact Hk|].
    apply IH. destruct a as [n|]; [|exact Hk].
    destruct acc as [s st]. destruct (getTargetElements st (RElement n)) as [children st1].
    simpl in *. apply elem_of_fold_setAdd. left. apply elem_of_setAdd. left. exact Hk.
  - intros Hk. destruct t as [n|[p|]]; [| |exact Hk];
      destruct acc as [s st]; simpl in *; apply elem_of_setAdd; left; exact Hk.
  - intros Hk. destruct t as [n|[p|]]; [| |exact Hk];
      destruct acc as [s st]; simpl in *; apply elem_of_setAdd; left; exact Hk.
Qed.

Lemma processMutation_named acc m n :
  namedByMutation n m = true -> n ∈ (processMutation acc m).1.
Proof.
  destruct m as [added|t|t]; simpl.
  - intros Hn. apply bool_decide_eq_true in Hn. revert acc.
    induction added as [|a added IH]; intros acc; [apply elem_of_nil in Hn; destruct Hn|].
    simpl. apply elem_of_cons in Hn as [<-|Hn]; [|apply IH, Hn].
    destruct acc as [s st]. destruct (getTargetElements st (RElement n)) as [children st1].
    apply (processMutation_mono _ (ChildList added)). simpl.
    apply elem_of_fold_setAdd. left. apply elem_of_setAdd. right. reflexivity.
  - destruct t as [k|[k|]]; [| |discriminate]; intros Hn;
      apply bool_decide_eq_true in Hn as ->; destruct acc as [s st]; simpl;
      apply elem_of_setAdd; right; reflexivity.
  - destruct t as [k|[k|]]; [| |discriminate]; intros Hn;
      apply bool_decide_eq_true in Hn as ->; destruct acc as [s st]; simpl;
      apply elem_of_setAdd; right; reflexivity.
Qed.

Lemma fold_processMutation_mono mutations :
  ∀ acc k, k ∈ acc.1 -> k ∈ (fold_left processMutation mutations acc).1.
Proof.
  induction mutations as [|m mutations IH]; intros acc k Hk; simpl; [exact Hk|].
  apply IH, processMutation_mono, Hk.
Qed.

Lemma named_joins_affectedElements st mutations n :
  namedBy mutations n = true -> n ∈ (affectedElements st mutations).1.
Proof.
  unfold affectedElements, namedBy. generalize (([] : list node), st).
  induction mutations as [|m mutations IH]; intros acc Hn; simpl in *; [discriminate|].
  apply orb_prop in Hn as [Hn|Hn]; [|apply IH, Hn].
  apply fold_processMutation_mono, processMutation_named, Hn.
Qed.

(** C5, as the script behaves.  A node found by discovery (a scan, a rescan,
    or the search below an inserted element), and a node that reaches the set
    of [processMutations] without being named by a mutation record, is
    selected only if its extracted text differs from its cached text or it is
    not marked processed with a cached text.  A node that a mutation record
    names (an inserted element, the element or parent element of a content
    or attribute change) always joins the set, whatever its text and its
    marks. *)
Theorem selection_by_discovery_and_by_record (st : State) (n : node) :
  ((∃ root, n ∈ (getTargetElements st root).1)
   ∨ (∃ mutations, n ∈ (affectedElements st mutations).1
                   ∧ namedBy mutations n = false) ->
   textDiffers st n ∨ ¬ markedProcessed st n)
  ∧ (∀ mutations, namedBy mutations n = true ->
                  n ∈ (affectedElements st mutations).1).
Proof.
  split.
  - intros [[root Hn]|(mutations & Hn & Hnamed)]; right.
    + exact (proj2 (getTargetElements_spec st root) n Hn).
    + destruct (affectedElements_spec st mutations n Hn) as [H|H];
        [congruence|exact H].
  - intros mutations. apply named_joins_affectedElements.
Qed.

(** On the page of two paragraphs after a slice that processed the first
    one only: discovery returns the second paragraph and not the first,
    which is marked and whose text is the cached one; a record that names
    the first paragraph as inserted selects it all the same. *)
Lemma selection_by_discovery_and_by_record_witness :
  let st := midBatch in
  (markedProcessed st 1 ∧ ¬ textDiffers st 1)
  ∧ (getTargetElements st RDocument).1 = [2]
  ∧ (textDiffers st 2 ∨ ¬ markedProcessed st 2)
  ∧ 1 ∈ (affectedElements st [ChildList [AddedElement 1]]).1.
Proof.
  intros st.
  assert (Hlist : (getTargetElements st RDocument).1 = [2])
    by (vm_compute; reflexivity).
  split; [split; [split|]|].
  - apply (bool_decide_unpack _). vm_compute. exact I.
  - apply (bool_decide_unpack _). vm_compute. exact I.
  - intros Hd. apply Hd. apply (bool_decide_unpack _). vm_compute. exact I.
  - split; [exact Hlist|]. split.
    + apply (proj1 (selection_by_discovery_and_by_record st 2)).
      left. exists RDocument. rewrite Hlist. apply list_elem_of_singleton. reflexivity.
    + apply (proj2 (selection_by_discovery_and_by_record st 1)).
      vm_compute. reflexivity.
Defined.

(** C5 as stated fails on the mutation path: a paragraph that is marked
    processed and whose cached text is its current text is selected again
    when a child-list record names it as an added node. *)
Lemma reinserted_node_selected_again :
  let st := scannedTwoParagraphs in
  let st' := run sampleLetter st
               [MutationsObserved [ChildList [AddedElement 1]]; TimerFires] in
  markedProcessed st 1
  ∧ textCache st !! 1 = Some (getElementText st 1).1
  ∧ isConnected (dom st') 1 = true
  ∧ map elements (animationFrames st') = [[1]].
Proof.
  intros st st'. split; [split|].
  - apply (bool_decide_unpack _). vm_compute. exact I.
  - apply (bool_decide_unpack _). vm_compute. exact I.
  - repeat split; vm_compute; reflexivity.
Qed.

(** ** Disabling *)

Lemma removeRTLStyles_fields st n :
  let st' := removeRTLStyles st n in
  debounceTimer st' = debounceTimer st ∧ isEnabled st' = isEnabled st
  ∧ isProcessing st' = isProcessing st ∧ animationFrames st' = animationFrames st
  ∧ documentTree (dom st') = documentTree (dom st).
Proof.
  unfold removeRTLStyles. destruct (elems (dom st) !! n); simpl; auto.
Qed.

Lemma removeAllRTLStyles_fields st :
  let st' := removeAllRTLStyles st in
  debounceTimer st' = debounceTimer st ∧ isEnabled st' = isEnabled st
  ∧ isProcessing st' = isProcessing st ∧ animationFrames st' = animationFrames st
  ∧ documentTree (dom st') = documentTree (dom st).
Proof.
  unfold removeAllRTLStyles.
  generalize (querySelectorAll (dom st) RDocument [[SAttr "data-rtl-applied" "true"]]).
  intros l. revert st. induction l as [|n l IH]; intros st; simpl; [auto|].
  destruct (IH (removeRTLStyles st n)) as (H1 & H2 & H3 & H4 & H5).
  destruct (removeRTLStyles_fields st n) as (G1 & G2 & G3 & G4 & G5).
  simpl in *. repeat split; congruence.
Qed.

(** What [disable] does to the flags: the engine is off, the timeout is
    cancelled, and the callbacks waiting for a frame are all still there. *)
Lemma disable_flags st :
  isEnabled (disable st) = false ∧ isProcessing (disable st) = false
  ∧ debounceTimer (disable st) = None
  ∧ animationFrames (disable st) = animationFrames st.
Proof.
  unfold disable.
  destruct (removeAllRTLStyles_fields
              (setDebounceTimer (setIsProcessing (setIsEnabled st false) false) None))
    as (H1 & H2 & H3 & H4 & _).
  simpl in *. auto.
Qed.

Lemma removeRTLStyles_clears st n :
  is_Some (elems (dom st) !! n) -> cleared (removeRTLStyles st n) n.
Proof.
  intros [e He]. unfold removeRTLStyles, cleared, attributeOf. rewrite He. simpl.
  rewrite lookup_insert_eq. simpl.
  rewrite lookup_delete_ne by discriminate.
  rewrite !lookup_delete_eq.
  repeat split; try reflexivity.
  rewrite elem_of_difference, elem_of_singleton. tauto.
Qed.

Lemma removeRTLStyles_keeps_cleared st k n :
  cleared st n -> cleared (removeRTLStyles st k) n.
Proof.
  intros Hc. destruct (decide (k = n)) as [->|Hne].
  - destruct (elems (dom st) !! n) eqn:He.
    + apply removeRTLStyles_clears. eexists; exact He.
    + unfold removeRTLStyles. rewrite He. exact Hc.
  - destruct Hc as (H1 & H2 & H3 & H4).
    unfold removeRTLStyles, cleared, attributeOf in *.
    destruct (elems (dom st) !! k) as [e|]; [|auto]. simpl.
    rewrite !lookup_insert_ne by assumption.
    rewrite lookup_delete_ne by assumption.
    repeat split; try assumption.
    rewrite elem_of_difference. tauto.
Qed.

Lemma removeRTLStyles_elems_other st k n :
  k ≠ n -> elems (dom (removeRTLStyles st k)) !! n = elems (dom st) !! n.
Proof.
  intros Hne. unfold removeRTLStyles.
  destruct (elems (dom st) !! k); [|reflexivity].
  simpl. apply lookup_insert_ne. assumption.
Qed.

Lemma removeRTLStyles_elems_some st k n :
  is_Some (elems (dom st) !! n) -> is_Some (elems (dom (removeRTLStyles st k)) !! n).
Proof.
  intros Hn. destruct (decide (k = n)) as [->|Hne].
  - unfold removeRTLStyles. destruct Hn as [e He]. rewrite He.
    simpl. rewrite lookup_insert_eq. eexists; reflexivity.
  - rewrite removeRTLStyles_elems_other by assumption. exact Hn.
Qed.

Lemma fold_remove_keeps_cleared n l :
  ∀ st, cleared st n -> cleared (fold_left removeRTLStyles l st) n.
Proof.
  induction l as [|k l IH]; intros st Hc; simpl; [exact Hc|].
  apply IH, removeRTLStyles_keeps_cleared, Hc.
Qed.

Lemma fold_remove_clears n l :
  ∀ st, n ∈ l -> is_Some (elems (dom st) !! n) ->
        cleared (fold_left removeRTLStyles l st) n.
Proof.
  induction l as [|k l IH]; intros st Hn He; simpl.
  - apply elem_of_nil in Hn. destruct Hn.
  - destruct (decide (k = n)) as [->|Hne].
    + apply fold_remove_keeps_cleared, removeRTLStyles_clears, He.
    + apply elem_of_cons in Hn as [Hn|Hn]; [congruence|].
      apply IH; [exact Hn|]. apply removeRTLStyles_elems_some, He.
Qed.

Lemma fold_remove_elems_other n l :
  ∀ st, n ∉ l ->
        elems (dom (fold_left removeRTLStyles l st)) !! n = elems (dom st) !! n.
Proof.
  induction l as [|k l IH]; intros st Hn; simpl; [reflexivity|].
  apply not_elem_of_cons in Hn as [Hne Hn].
  rewrite IH by assumption. apply removeRTLStyles_elems_other. congruence.
Qed.

(** When [disable] returns, no node of the document is styled, and every
    node of the document that was styled has lost the marker and the ratio
    attribute, its processed mark and its cached text. *)
Lemma disable_clears_styled_nodes st n :
  n ∈ forestNodes (documentTree (dom st)) ->
  styled (dom (disable st)) n = false
  ∧ (styled (dom st) n = true -> cleared (disable st) n).
Proof.
  intros Hdoc. unfold disable, removeAllRTLStyles.
  set (st1 := setDebounceTimer (setIsProcessing (setIsEnabled st false) false) None).
  change (dom st1) with (dom st).
  destruct (styled (dom st) n) eqn:Hst.
  - assert (Hc : cleared (fold_left removeRTLStyles
                   (querySelectorAll (dom st) RDocument
                      [[SAttr "data-rtl-applied" "true"]]) st1) n).
    { apply fold_remove_clears; [apply elem_of_marked_query; auto|].
      change (dom st1) with (dom st).
      unfold styled, attributeOf in Hst.
      destruct (elems (dom st) !! n); [eexists; reflexivity|].
      apply bool_decide_eq_true in Hst. discriminate. }
    split; [|intros _; exact Hc].
    unfold styled. destruct Hc as (Hm & _). rewrite Hm. reflexivity.
  - split; [|discriminate].
    unfold styled, attributeOf.
    rewrite fold_remove_elems_other; [exact Hst|].
    rewrite elem_of_marked_query. intros [_ H]. congruence.
Qed.

(** C2 evaluated on a batch of two paragraphs whose first slice processed
    one of them, with a timeout pending: [disable] cancels the timeout, but
    the callback of the batch is still registered, and at the next frame it
    starts a slice that styles the second paragraph although the engine is
    disabled. *)
Theorem disable_does_not_stop_slices :
  let st := midBatch in
  let disabled := step sampleLetter st Disable in
  let st' := step sampleLetter disabled AnimationFrame in
  animationFrames st = [mkBatch [1; 2] 1]
  ∧ debounceTimer st = Some [CharacterData (TargetElement 2)]
  ∧ debounceTimer disabled = None
  ∧ isEnabled disabled = false
  ∧ animationFrames disabled = [mkBatch [1; 2] 1]
  ∧ styled (dom disabled) 2 = false
  ∧ isEnabled st' = false
  ∧ styled (dom st') 2 = true.
Proof. repeat split; vm_compute; reflexivity. Qed.

(** C3 evaluated on the same batch: once [disable] has returned and the
    pending frame has run, nothing is left to run, the engine is disabled,
    and the second paragraph carries the marker and the ratio attribute and is
    marked processed with a cached text. *)
Theorem disable_then_frame_leaves_marker :
  let st := run sampleLetter midBatch [Disable; AnimationFrame] in
  isEnabled st = false
  ∧ animationFrames st = [] ∧ debounceTimer st = None
  ∧ isConnected (dom st) 2 = true
  ∧ attributeOf (dom st) 2 "data-rtl-applied" = Some "true"%string
  ∧ attributeOf (dom st) 2 "data-arabic-ratio" = Some "1.00"%string
  ∧ markedProcessed st 2.
Proof.
  do 6 (split; [vm_compute; reflexivity|]).
  split; apply (bool_decide_unpack _); vm_compute; exact I.
Qed.


(** * Further properties of the code *)

(** ** The classifier on texts without Arabic and on texts that begin with a URL *)

Section ClassifierEdges.

Variable isLetter : N -> bool.

Lemma removeLtrFrom_subset (s : jsstring) :
  ∀ k c, In c (removeLtrFrom k s) -> In c s.
Proof.
  induction s as [|a s IH]; intros k c Hc; simpl in *; [exact Hc|].
  destruct k as [|k]; [|right; exact (IH k c Hc)].
  destruct (ltrPreserveMatch (a :: s)) as [[|j]|].
  - destruct Hc as [Hc|Hc]; [left; exact Hc | right; exact (IH 0%nat c Hc)].
  - right. exact (IH j c Hc).
  - destruct Hc as [Hc|Hc]; [left; exact Hc | right; exact (IH 0%nat c Hc)].
Qed.

Lemma keepLetters_subset_bounded (n : nat) :
  ∀ s c, (length s <= n)%nat -> In c (keepLetters isLetter s) -> In c s.
Proof.
  induction n as [|n IH]; intros s c Hlen Hc.
  - destruct s; [exact Hc | simpl in Hlen; lia].
  - destruct s as [|a t]; [exact Hc|].
    destruct t as [|lo r].
    + simpl in Hc. destruct (isLetter a); [exact Hc | destruct Hc].
    + simpl in Hlen. cbn [keepLetters] in Hc.
      destruct (isHighSurrogate a && isLowSurrogate lo).
      * destruct (isLetter (codePoint a lo)).
        -- destruct Hc as [Hc|[Hc|Hc]]; [left; exact Hc | right; left; exact Hc |].
           right; right. apply (IH r c); [lia | exact Hc].
        -- right; right. apply (IH r c); [lia | exact Hc].
      * destruct (isLetter a).
        -- destruct Hc as [Hc|Hc]; [left; exact Hc|].
           right. apply (IH (lo :: r) c); [simpl; lia | exact Hc].
        -- right. apply (IH (lo :: r) c); [simpl; lia | exact Hc].
Qed.

(** Every code unit of the cleaned text is a code unit of the text. *)
Lemma cleanText_subset (text : jsstring) (c : N) :
  In c (cleanText isLetter text) -> In c text.
Proof.
  unfold cleanText, removeLtrPreserve, removeWhitespace. intros Hc.
  apply (keepLetters_subset_bounded _ _ _ (le_n _)) in Hc.
  apply removeLtrFrom_subset in Hc.
  apply filter_In in Hc. apply Hc.
Qed.

(** X1: a text that holds no code unit of the Arabic ranges has ratio 0,
    whatever else it holds and whatever the letter table is. *)
Theorem ratio_zero_without_arabic (text : jsstring) :
  forallb (fun c => negb (isArabic c)) text = true ->
  (calculateArabicRatio isLetter text == 0)%Q.
Proof.
  intros Hno. unfold calculateArabicRatio.
  destruct text as [|a text]; [reflexivity|].
  destruct (length (trim (a :: text)) =? 0)%nat; [reflexivity|].
  destruct (length (cleanText isLetter (a :: text))) as [|n]; [reflexivity|].
  assert (Hnone : arabicMatches (cleanText isLetter (a :: text)) = []).
  { unfold arabicMatches.
    destruct (List.filter isArabic (cleanText isLetter (a :: text))) as [|c l] eqn:Hf;
      [reflexivity|].
    assert (Hc : In c (List.filter isArabic (cleanText isLetter (a :: text))))
      by (rewrite Hf; left; reflexivity).
    apply filter_In in Hc as [Hin Har].
    apply cleanText_subset in Hin.
    pose proof (proj1 (forallb_forall _ _) Hno c Hin) as Hneg.
    cbv beta in Hneg. rewrite Har in Hneg. discriminate. }
  rewrite Hnone. reflexivity.
Qed.

(** X2: white space is removed before URLs are, so a URL at the start of
    a text runs to the end of the text: a text that begins with "http://",
    "https://" or "www." and goes on with anything but white space alone has
    ratio 0, Arabic words after the URL included. *)
Theorem ratio_zero_after_leading_url (scheme rest : jsstring) :
  scheme ∈ [js "http://"; js "https://"; js "www."] ->
  removeWhitespace rest ≠ [] ->
  calculateArabicRatio isLetter (scheme ++ rest) = 0%Q.
Proof.
  intros Hs Hrest.
  assert (Hclean : cleanText isLetter (scheme ++ rest) = []).
  { unfold cleanText.
    assert (Hall : forallb (fun c => negb (isSpace c)) (removeWhitespace rest) = true).
    { apply forallb_forall. intros c Hc. apply filter_In in Hc. apply Hc. }
    pose proof (url_token_removed scheme (removeWhitespace rest) Hs Hrest Hall) as Hu.
    assert (Hws : removeWhitespace (scheme ++ removeWhitespace rest)
                  = removeWhitespace (scheme ++ rest)).
    { unfold removeWhitespace. rewrite !List.filter_app.
      f_equal. clear. induction rest as [|c r IH]; simpl; [reflexivity|].
      destruct (negb (isSpace c)) eqn:Hc; simpl; [rewrite Hc, IH|]; auto. }
    rewrite <- Hws, Hu. reflexivity. }
  unfold calculateArabicRatio. rewrite Hclean.
  destruct (scheme ++ rest) as [|c text]; [reflexivity|].
  destruct (length (trim (c :: text)) =? 0)%nat; reflexivity.
Qed.

End ClassifierEdges.

Lemma ratio_zero_without_arabic_witness :
  forallb (fun c => negb (isArabic c)) (js "hello world 42") = true
  ∧ (calculateArabicRatio sampleLetter (js "hello world 42") == 0)%Q.
Proof.
  assert (H : forallb (fun c => negb (isArabic c)) (js "hello world 42") = true)
    by (vm_compute; reflexivity).
  split; [exact H|]. exact (ratio_zero_without_arabic sampleLetter _ H).
Defined.

Lemma ratio_zero_after_leading_url_witness :
  removeWhitespace (js " " ++ arabicWord) ≠ []
  ∧ calculateArabicRatio sampleLetter (js "https://" ++ js " " ++ arabicWord) = 0%Q.
Proof.
  assert (H : removeWhitespace (js " " ++ arabicWord) ≠ [])
    by (vm_compute; discriminate).
  split; [exact H|].
  apply (ratio_zero_after_leading_url sampleLetter (js "https://")); [|exact H].
  apply elem_of_cons. right. apply elem_of_cons. left. reflexivity.
Defined.

(** ** The configuration, key by key *)

Lemma makeConfig_empty :
  makeConfig ∅
  = <["arabicThreshold" := VNum (3 # 10)]>
    (<["debounceDelay" := VNum 150]>
    (<["enableVisualFeedback" := VBool true]>
    (<["enableIframeHandling" := VBool true]>
    (<["batchSize" := VNum 30]>
    (<["maxProcessingTime" := VNum 16]> ∅))))).
Proof.
  unfold makeConfig. rewrite (left_id_L ∅ (∪)).
  unfold prop. rewrite !lookup_empty. reflexivity.
Qed.

Lemma makeConfig_lookup (options : gmap string Value) (k : string) :
  prop (makeConfig options) k
  = match options !! k with
    | Some v => v
    | None => prop (makeConfig ∅) k
    end.
Proof.
  destruct (options !! k) as [v|] eqn:Hk.
  - unfold prop, makeConfig.
    erewrite lookup_union_Some_l by eassumption. reflexivity.
  - rewrite makeConfig_empty. unfold makeConfig, prop.
    rewrite lookup_union_r by assumption.
    repeat match goal with
      | |- context [<[?key := _]> _ !! k] =>
          destruct (decide (key = k)) as [<-|];
          [ rewrite !lookup_insert_eq, Hk; reflexivity
          | rewrite !(lookup_insert_ne _ key k) by assumption ]
      end.
    reflexivity.
Qed.

(** X3: for every key, the effective configuration holds the value the
    caller gave under that key, whatever the value (0, false and undefined
    are kept as they are), and the default when the caller gave none; the
    defaults are 0.3, 150, true, true, 30 and 16. *)
Theorem makeConfig_effective (options : gmap string Value) (k : string) (v : Value) :
  prop (makeConfig (<[k := v]> options)) k = v
  ∧ prop (makeConfig (delete k options)) k = prop (makeConfig ∅) k
  ∧ makeConfig ∅
    = list_to_map
        [("arabicThreshold", VNum (3 # 10)); ("debounceDelay", VNum 150);
         ("enableVisualFeedback", VBool true); ("enableIframeHandling", VBool true);
         ("batchSize", VNum 30); ("maxProcessingTime", VNum 16)]%string.
Proof.
  split; [|split].
  - rewrite makeConfig_lookup, lookup_insert_eq. reflexivity.
  - rewrite makeConfig_lookup, lookup_delete_eq. reflexivity.
  - rewrite makeConfig_empty. reflexivity.
Qed.

Lemma makeConfig_defaults_dom (options : gmap string Value) (k : string) :
  makeConfig options !! k = None -> prop (makeConfig ∅) k = VUndefined.
Proof.
  intros Hk. unfold makeConfig in Hk.
  apply lookup_union_None in Hk as [_ Hk].
  rewrite makeConfig_empty. unfold prop.
  do 6 (apply lookup_insert_None in Hk as [Hk ?]).
  repeat (rewrite lookup_insert_ne by assumption).
  reflexivity.
Qed.

(** X4: the engine [handleIframes] creates for an embedded document has
    iframe handling switched off, so it creates no engine in turn, and has
    the configuration of its parent under every other key. *)
Theorem iframe_engine_config (options : gmap string Value) (k : string) :
  prop (makeConfig (iframeOptions (makeConfig options))) k
  = if String.eqb k "enableIframeHandling" then VBool false
    else prop (makeConfig options) k.
Proof.
  rewrite makeConfig_lookup. unfold iframeOptions.
  destruct (String.eqb k "enableIframeHandling") eqn:Hk.
  - apply String.eqb_eq in Hk. subst k. rewrite lookup_insert_eq. reflexivity.
  - apply String.eqb_neq in Hk. rewrite lookup_insert_ne by congruence.
    unfold prop at 2.
    destruct (makeConfig options !! k) as [v|] eqn:Hv; [reflexivity|].
    apply (makeConfig_defaults_dom options k Hv).
Qed.

(** ** What [applyRTLStyles] writes *)

(** X5: the style written on an element.  The alignment is "right" for
    every tag: the choice of [getBestTextAlign] (center for a button, inherit
    for a table cell) is overwritten for every tag but DIV, and for DIV it is
    "right".  An element that is not a DIV gets direction rtl and
    unicode-bidi embed whatever its ratio; a DIV gets no direction and a
    unicode-bidi that depends on the ratio.  The transition is written when
    visual feedback is on. *)
Theorem rtlStyles_written (cfg : gmap string Value) (e : Element) (ratio : Q) :
  rtlStyles cfg e ratio !! "textAlign" = Some "right"%string
  ∧ rtlStyles cfg e ratio !! "direction"
    = (if String.eqb (tagName e) "DIV" then None else Some "rtl"%string)
  ∧ rtlStyles cfg e ratio !! "unicodeBidi"
    = Some (if String.eqb (tagName e) "DIV"
            then (if Qltb (7 # 10) ratio then "bidi-override" else "plaintext")
            else "embed")%string
  ∧ rtlStyles cfg e ratio !! "transition"
    = (if truthy (prop cfg "enableVisualFeedback")
       then Some "all 0.3s ease"%string else None)
  ∧ (∀ k, k ∉ ["textAlign"; "direction"; "unicodeBidi"; "transition"]%string ->
          rtlStyles cfg e ratio !! k = None).
Proof.
  unfold rtlStyles.
  destruct (String.eqb (tagName e) "DIV") eqn:Hdiv;
    destruct (truthy (prop cfg "enableVisualFeedback")); cbn [negb];
    (split; [|split; [|split; [|split]]]);
    try (intros k Hk;
         repeat (apply not_elem_of_cons in Hk as [? Hk]);
         repeat (rewrite lookup_insert_ne by congruence);
         apply lookup_empty);
    repeat first [ rewrite lookup_insert_eq | rewrite lookup_insert_ne by discriminate
                 | rewrite lookup_empty ];
    try reflexivity.
  all: apply String.eqb_eq in Hdiv; unfold getBestTextAlign; rewrite Hdiv; simpl;
       destruct (hasAttribute e "contenteditable"); reflexivity.
Qed.





(** ** What the operations leave alone *)

Lemma sameFrame_refl st : sameFrame st st.
Proof. repeat split. Qed.

Lemma sameFrame_trans st1 st2 st3 :
  sameFrame st1 st2 -> sameFrame st2 st3 -> sameFrame st1 st3.
Proof.
  intros (A1 & A2 & A3 & A4) (B1 & B2 & B3 & B4).
  repeat split; congruence.
Qed.

Lemma getElementText_dom st n : dom (getElementText st n).2 = dom st.
Proof. unfold getElementText. destruct (elems (dom st) !! n); reflexivity. Qed.

Lemma getElementText_frame st n : sameFrame st (getElementText st n).2.
Proof.
  unfold getElementText. destruct (elems (dom st) !! n); repeat split.
Qed.

Lemma keepTarget_dom st n :
  dom (keepTarget st n).2 = dom st ∧ sameFrame st (keepTarget st n).2.
Proof.
  unfold keepTarget.
  destruct (elems (dom st) !! n) as [e|]; [|split; [reflexivity|apply sameFrame_refl]].
  destruct (existsb (matches e) skipSelectors);
    [split; [reflexivity|apply sameFrame_refl]|].
  destruct (negb (isElementVisible e));
    [split; [reflexivity|apply sameFrame_refl]|].
  destruct (bool_decide (n ∈ processedElements st)
            && bool_decide (is_Some (textCache st !! n)));
    [|split; [reflexivity|apply sameFrame_refl]].
  pose proof (getElementText_dom st n) as Hd.
  pose proof (getElementText_frame st n) as Hf.
  destruct (getElementText st n) as [text st1]; simpl in *.
  destruct (bool_decide (textCache st1 !! n = Some text)); split; assumption.
Qed.

Lemma filterTargets_dom l :
  ∀ st, dom (filterTargets st l).2 = dom st ∧ sameFrame st (filterTargets st l).2.
Proof.
  induction l as [|k l IH]; intros st; simpl;
    [split; [reflexivity|apply sameFrame_refl]|].
  destruct (keepTarget_dom st k) as [Hd1 Hf1].
  destruct (keepTarget st k) as [keep st1]; simpl in *.
  destruct (IH st1) as [Hd2 Hf2].
  destruct (filterTargets st1 l) as [rest st2]; simpl in *.
  split; [congruence | eapply sameFrame_trans; eassumption].
Qed.

Lemma getTargetElements_dom st root :
  dom (getTargetElements st root).2 = dom st
  ∧ sameFrame st (getTargetElements st root).2.
Proof. apply filterTargets_dom. Qed.

Lemma applyRTLStyles_frame st n r :
  sameFrame st (applyRTLStyles st n r)
  ∧ processedElements (applyRTLStyles st n r) = processedElements st
  ∧ textCache (applyRTLStyles st n r) = textCache st
  ∧ clockReads (applyRTLStyles st n r) = clockReads st.
Proof.
  unfold applyRTLStyles.
  destruct (elems (dom st) !! n) as [e|]; [|repeat split].
  destruct (hasLtrOverride e); [repeat split|].
  destruct (sameRatioApplied e r); repeat split.
Qed.

Lemma processElement_frame (isLetter : N -> bool) st n :
  sameFrame st (processElement isLetter st n)
  ∧ clockReads (processElement isLetter st n) = clockReads st.
Proof.
  unfold processElement.
  destruct (elems (dom st) !! n) as [e|]; [|repeat split].
  destruct (negb (isConnected (dom st) n)); [repeat split|].
  pose proof (getElementText_frame st n) as Hf.
  assert (Hr : clockReads (getElementText st n).2 = clockReads st)
    by (unfold getElementText; destruct (elems (dom st) !! n); reflexivity).
  destruct (getElementText st n) as [text st1]; simpl in *.
  destruct text as [|c text]; [split; assumption|].
  destruct (length (trim (c :: text)) <? 3)%nat; [split; assumption|].
  destruct (applyRTLStyles_frame st1 n (calculateArabicRatio isLetter (c :: text)))
    as (Ha & _ & _ & Hra).
  assert (Hmark : ∀ s, sameFrame st s -> clockReads s = clockReads st ->
            sameFrame st (setProcessedElements s ({[n]} ∪ processedElements s))
            ∧ clockReads (setProcessedElements s ({[n]} ∪ processedElements s))
              = clockReads st).
  { intros s (A1 & A2 & A3 & A4) B. repeat split; assumption. }
  apply Hmark;
    repeat match goal with |- context [if ?b then _ else _] => destruct b end;
    first [ assumption | congruence
          | eapply sameFrame_trans; [exact Hf | exact Ha] ].
Qed.

Lemma invalidate_dom acc n :
  dom (invalidate acc n).2 = dom acc.2 ∧ sameFrame acc.2 (invalidate acc n).2.
Proof. destruct acc as [s st]. repeat split. Qed.

Lemma processMutation_dom acc m :
  dom (processMutation acc m).2 = dom acc.2
  ∧ sameFrame acc.2 (processMutation acc m).2.
Proof.
  destruct m as [added|t|t]; simpl;
    [| destruct t as [n|[p|]];
       [apply invalidate_dom | apply invalidate_dom
       | split; [reflexivity|apply sameFrame_refl]]
     | destruct t as [n|[p|]];
       [apply invalidate_dom | apply invalidate_dom
       | split; [reflexivity|apply sameFrame_refl]] ].
  revert acc. induction added as [|a added IH]; intros acc; simpl;
    [split; [reflexivity|apply sameFrame_refl]|].
  match goal with |- context [fold_left ?f added ?x] => destruct (IH x) as [Hd Hf] end.
  rewrite Hd. split.
  - destruct a as [n|]; [|reflexivity]. destruct acc as [s st].
    pose proof (proj1 (getTargetElements_dom st (RElement n))) as H.
    destruct (getTargetElements st (RElement n)); exact H.
  - eapply sameFrame_trans; [|exact Hf].
    destruct a as [n|]; [|apply sameFrame_refl]. destruct acc as [s st].
    pose proof (proj2 (getTargetElements_dom st (RElement n))) as H.
    destruct (getTargetElements st (RElement n)); exact H.
Qed.

Lemma fold_processMutation_dom mutations :
  ∀ acc, dom (fold_left processMutation mutations acc).2 = dom acc.2
         ∧ sameFrame acc.2 (fold_left processMutation mutations acc).2.
Proof.
  induction mutations as [|m mutations IH]; intros acc; simpl;
    [split; [reflexivity|apply sameFrame_refl]|].
  destruct (IH (processMutation acc m)) as [Hd Hf].
  destruct (processMutation_dom acc m) as [Hd1 Hf1].
  split; [congruence | eapply sameFrame_trans; eassumption].
Qed.

Lemma affectedElements_dom st mutations :
  dom (affectedElements st mutations).2 = dom st
  ∧ sameFrame st (affectedElements st mutations).2.
Proof. apply (fold_processMutation_dom mutations ([], st)). Qed.

(** ** Discovery *)

Lemma keepTarget_decision st n :
  (keepTarget st n).1 = true
  ↔ passesFilter (dom st) n = true ∧ ¬ markedProcessed st n.
Proof.
  pose proof (proj2 (keepTarget_spec st n)) as Hun.
  unfold keepTarget, passesFilter in *.
  destruct (elems (dom st) !! n) as [e|] eqn:He; [|simpl; intuition discriminate].
  destruct (existsb (matches e) skipSelectors); [simpl; intuition discriminate|].
  destruct (negb (isElementVisible e)) eqn:Hv.
  - apply negb_true_iff in Hv. rewrite Hv. simpl. intuition discriminate.
  - apply negb_false_iff in Hv. rewrite Hv. simpl.
    split; [intros H; split; [reflexivity | exact (Hun H)]|].
    intros [_ Hnot].
    destruct (bool_decide (n ∈ processedElements st)) eqn:Hp; [|reflexivity].
    destruct (bool_decide (is_Some (textCache st !! n))) eqn:Hc; [|reflexivity].
    exfalso. apply Hnot.
    split; [apply bool_decide_eq_true in Hp | apply bool_decide_eq_true in Hc];
      assumption.
Qed.

Lemma filterTargets_characterized l :
  ∀ st n, n ∈ (filterTargets st l).1
          ↔ n ∈ l ∧ passesFilter (dom st) n = true ∧ ¬ markedProcessed st n.
Proof.
  induction l as [|k l IH]; intros st n; simpl.
  - rewrite elem_of_nil. tauto.
  - pose proof (keepTarget_decision st k) as Hk.
    destruct (keepTarget_spec st k) as [Hs _].
    destruct (keepTarget_dom st k) as [Hd _].
    destruct (keepTarget st k) as [keep st1]; simpl in *.
    specialize (IH st1 n). rewrite Hd, (sameMarks_marked st st1 n Hs) in IH.
    destruct (filterTargets st1 l) as [rest st2]; simpl in *.
    rewrite elem_of_cons.
    destruct keep.
    + rewrite elem_of_cons, IH. split.
      * intros [->|H]; [|tauto]. split; [left; reflexivity | apply Hk; reflexivity].
      * intros [[->|H] H']; [left; reflexivity | right; tauto].
    + rewrite IH. split; [tauto|].
      intros [[->|H] H']; [|tauto].
      apply Hk in H'. discriminate.
Qed.

(** The three tests of discovery in elementary terms: the selectors of the
    two lists and the visibility test. *)
Lemma typeAllowed_lookup (e : Element) :
  (∀ v, attributes e !! "type" = Some v ->
        toLowerCase v ∉ ["password"; "email"; "url"]%string)
  ↔ matchesSimple e (SAttr "type" "password") = false
    ∧ matchesSimple e (SAttr "type" "email") = false
    ∧ matchesSimple e (SAttr "type" "url") = false.
Proof.
  cbn [matchesSimple].
  destruct (attributes e !! "type") as [w|].
  - change (attributeMatches "type" "password" w) with (String.eqb (toLowerCase w) "password").
    change (attributeMatches "type" "email" w) with (String.eqb (toLowerCase w) "email").
    change (attributeMatches "type" "url" w) with (String.eqb (toLowerCase w) "url").
    rewrite !String.eqb_neq. split.
    + intros H. specialize (H w eq_refl).
      repeat (apply not_elem_of_cons in H as [? H]). auto.
    + intros (H1 & H2 & H3) v [= <-].
      repeat (apply not_elem_of_cons; split; [assumption|]). apply not_elem_of_nil.
  - split; [auto|]. intros _ v Hv. discriminate.
Qed.

Lemma targetSelectors_spec (e : Element) :
  existsb (matches e) targetSelectors = true
  ↔ tagName e ∈ ["P"; "SPAN"; "H1"; "H2"; "H3"; "H4"; "H5"; "H6"; "TEXTAREA";
                 "LABEL"; "BUTTON"; "A"; "LI"; "TD"; "TH"]%string
    ∨ (tagName e = "INPUT"%string
       ∧ ∀ v, attributes e !! "type" = Some v ->
              toLowerCase v ∉ ["password"; "email"; "url"]%string)
    ∨ attributes e !! "contenteditable" = Some "true"%string
    ∨ attributes e !! "contenteditable" = Some EmptyString.
Proof.
  rewrite typeAllowed_lookup.
  cbn [targetSelectors existsb matches forallb].
  rewrite !andb_true_r, orb_false_r.
  assert (Hce : ∀ v, matchesSimple e (SAttr "contenteditable" v) = true
                     ↔ attributes e !! "contenteditable" = Some v).
  { intros v. cbn [matchesSimple].
    destruct (attributes e !! "contenteditable") as [w|]; [|split; discriminate].
    change (attributeMatches "contenteditable" v w) with (String.eqb w v).
    rewrite String.eqb_eq. split; congruence. }
  rewrite !orb_true_iff, !andb_true_iff, !Hce.
  cbn [matchesSimple]. rewrite !negb_true_iff, !String.eqb_eq.
  rewrite !elem_of_cons, elem_of_nil.
  tauto.
Qed.

Lemma skipSelectors_spec (e : Element) :
  existsb (matches e) skipSelectors = false
  ↔ (tagName e ∉ ["CODE"; "PRE"; "SCRIPT"; "STYLE"; "NOSCRIPT"; "DIV"]%string)
    ∧ attributes e !! "data-rtl-skip" = None
    ∧ ("rtl-skip"%string ∉ classList e)
    ∧ (tagName e = "INPUT"%string ->
       ∀ v, attributes e !! "type" = Some v ->
            toLowerCase v ∉ ["password"; "email"; "url"]%string).
Proof.
  rewrite typeAllowed_lookup.
  cbn [skipSelectors existsb matches forallb].
  rewrite !andb_true_r, orb_false_r.
  rewrite !orb_false_iff, !andb_false_iff.
  cbn [matchesSimple]. unfold hasAttribute.
  rewrite !String.eqb_neq, !bool_decide_eq_false, <- eq_None_not_Some.
  repeat rewrite not_elem_of_cons.
  pose proof (not_elem_of_nil (tagName e)) as Hnil.
  destruct (String.eqb_spec (tagName e) "INPUT") as [Hin|Hin]; tauto.
Qed.

Lemma isElementVisible_spec (e : Element) :
  isElementVisible e = true
  ↔ (offsetParent e = true ∨ offsetHeight e ≠ 0%Z ∨ offsetWidth e ≠ 0%Z)
    ∧ (∀ cs, computedStyle e = Some cs ->
             display cs ≠ "none"%string ∧ visibility cs ≠ "hidden"%string
             ∧ opacity cs ≠ "0"%string).
Proof.
  unfold isElementVisible.
  destruct (offsetParent e); destruct (Z.eqb_spec (offsetHeight e) 0);
    destruct (Z.eqb_spec (offsetWidth e) 0); cbn [negb andb];
    try (split; [intros H; discriminate | intros [[H|[H|H]] _]; congruence]);
    (destruct (computedStyle e) as [cs|];
     [ rewrite !andb_true_iff, !negb_true_iff, !String.eqb_neq; split;
       [ intros H; split; [tauto | intros cs' [= <-]; tauto]
       | intros [_ H]; specialize (H cs eq_refl); tauto ]
     | split; [intros _; split; [tauto | intros cs' H; discriminate] | reflexivity] ]).
Qed.

(** X7: discovery is exact.  A node is returned by [getTargetElements] if
    and only if it is a descendant of the root and has a record such that
    - its tag is one of the sixteen target tags, or its [contenteditable]
      attribute is exactly "true" or empty;
    - its tag is none of CODE, PRE, SCRIPT, STYLE, NOSCRIPT and DIV, it has
      no [data-rtl-skip] attribute and not the class [rtl-skip];
    - if it is an INPUT, its [type], compared without regard to ASCII case,
      is none of password, email and url;
    - it has an offset parent or a height or a width other than 0, and, when
      its computed style can be read, a display other than "none", a
      visibility other than "hidden" and an opacity other than "0";
    and the node is not marked processed with a cached text. *)
Theorem discovery_characterized (st : State) (root : Root) (n : node) :
  n ∈ (getTargetElements st root).1
  ↔ n ∈ descendantsOf (dom st) root
    ∧ (∃ e, elems (dom st) !! n = Some e
            ∧ (tagName e ∈ ["P"; "SPAN"; "H1"; "H2"; "H3"; "H4"; "H5"; "H6";
                            "TEXTAREA"; "LABEL"; "BUTTON"; "A"; "LI"; "TD";
                            "TH"; "INPUT"]%string
               ∨ attributes e !! "contenteditable" = Some "true"%string
               ∨ attributes e !! "contenteditable" = Some EmptyString)
            ∧ (tagName e ∉ ["CODE"; "PRE"; "SCRIPT"; "STYLE"; "NOSCRIPT"; "DIV"]%string)
            ∧ attributes e !! "data-rtl-skip" = None
            ∧ ("rtl-skip"%string ∉ classList e)
            ∧ (tagName e = "INPUT"%string ->
               ∀ v, attributes e !! "type" = Some v ->
                    toLowerCase v ∉ ["password"; "email"; "url"]%string)
            ∧ (offsetParent e = true ∨ offsetHeight e ≠ 0%Z ∨ offsetWidth e ≠ 0%Z)
            ∧ (∀ cs, computedStyle e = Some cs ->
                     display cs ≠ "none"%string ∧ visibility cs ≠ "hidden"%string
                     ∧ opacity cs ≠ "0"%string))
    ∧ ¬ markedProcessed st n.
Proof.
  unfold getTargetElements. rewrite filterTargets_characterized.
  unfold querySelectorAll, passesFilter.
  rewrite list_elem_of_In, filter_In, <- list_elem_of_In.
  destruct (elems (dom st) !! n) as [e|].
  - rewrite andb_true_iff, negb_true_iff.
    rewrite targetSelectors_spec, skipSelectors_spec, isElementVisible_spec.
    split.
    + intros ((Hd & Ht) & (Hs & Hv) & Hm). split; [exact Hd|]. split; [|exact Hm].
      exists e. split; [reflexivity|].
      rewrite !elem_of_cons in Ht. rewrite !elem_of_cons in Hs.
      rewrite !elem_of_cons. tauto.
    + intros (Hd & (e' & [= <-] & Ht & Hs) & Hm).
      rewrite !elem_of_cons in Ht. rewrite !elem_of_cons in Hs. rewrite !elem_of_cons.
      split; [|split; [|exact Hm]]; [split; [exact Hd|]|].
      2: tauto.
      destruct Hs as (_ & _ & _ & Hty & _). tauto.
  - split; [intros [[_ H] _]; discriminate | intros (_ & (e' & H & _) & _); discriminate].
Qed.

(** ** Reported changes *)

Lemma invalidate_unmarks acc n :
  n ∈ (invalidate acc n).1
  ∧ (n ∉ processedElements (invalidate acc n).2)
  ∧ textCache (invalidate acc n).2 !! n = None.
Proof.
  destruct acc as [s st]; simpl. split; [|split].
  - apply elem_of_setAdd. right. reflexivity.
  - rewrite elem_of_difference, elem_of_singleton. tauto.
  - apply lookup_delete_eq.
Qed.

Lemma processMutation_keeps_unmarked acc m n :
  n ∈ acc.1 ∧ (n ∉ processedElements acc.2) ∧ textCache acc.2 !! n = None ->
  n ∈ (processMutation acc m).1
  ∧ (n ∉ processedElements (processMutation acc m).2)
  ∧ textCache (processMutation acc m).2 !! n = None.
Proof.
  assert (Hinv : ∀ acc k,
            n ∈ acc.1 ∧ (n ∉ processedElements acc.2) ∧ textCache acc.2 !! n = None ->
            n ∈ (invalidate acc k).1
            ∧ (n ∉ processedElements (invalidate acc k).2)
            ∧ textCache (invalidate acc k).2 !! n = None).
  { intros [s st] k (H1 & H2 & H3); simpl in *. split; [|split].
    - apply elem_of_setAdd. left. exact H1.
    - rewrite elem_of_difference. tauto.
    - destruct (decide (k = n)) as [->|Hne];
        [apply lookup_delete_eq | rewrite lookup_delete_ne by assumption; exact H3]. }
  destruct m as [added|t|t]; simpl;
    [| destruct t as [k|[k|]]; auto | destruct t as [k|[k|]]; auto].
  revert acc. induction added as [|a added IH]; intros acc H; simpl; [exact H|].
  apply IH. destruct a as [k|]; [|exact H].
  destruct acc as [s st]; simpl in H. destruct H as (H1 & H2 & H3).
  destruct (getTargetElements_spec st (RElement k)) as [[Hp Hc] _].
  destruct (getTargetElements st (RElement k)) as [children st1]; simpl in *.
  split; [|split].
  - apply elem_of_fold_setAdd. left. apply elem_of_setAdd. left. exact H1.
  - rewrite Hp. exact H2.
  - destruct (textCache st1 !! n) eqn:Hn; [|reflexivity].
    assert (Hsome : is_Some (textCache st !! n)) by (apply Hc; eexists; exact Hn).
    rewrite H3 in Hsome. destruct Hsome as [? Hx]. discriminate.
Qed.

Lemma fold_processMutation_keeps_unmarked mutations n :
  ∀ acc,
    n ∈ acc.1 ∧ (n ∉ processedElements acc.2) ∧ textCache acc.2 !! n = None ->
    n ∈ (fold_left processMutation mutations acc).1
    ∧ (n ∉ processedElements (fold_left processMutation mutations acc).2)
    ∧ textCache (fold_left processMutation mutations acc).2 !! n = None.
Proof.
  induction mutations as [|m mutations IH]; intros acc H; simpl; [exact H|].
  apply IH, processMutation_keeps_unmarked, H.
Qed.

(** X8: an element that a characterData or attributes record reports (as
    its target, or as the parent of a target that is no element) is in the
    set that [processMutations] hands to the scheduler, and by then it has
    lost its processed mark and its cached text, whatever the other records
    of the batch are. *)
Theorem reported_change_is_forwarded
    (st : State) (mutations : list Mutation) (n : node) :
  existsb (reportedChange n) mutations = true ->
  n ∈ (affectedElements st mutations).1
  ∧ (n ∉ processedElements (affectedElements st mutations).2)
  ∧ textCache (affectedElements st mutations).2 !! n = None.
Proof.
  unfold affectedElements. generalize ([] : list node, st) as acc.
  induction mutations as [|m mutations IH]; intros acc H; simpl in *; [discriminate|].
  destruct (reportedChange n m) eqn:Hm; [|apply IH, H].
  apply fold_processMutation_keeps_unmarked.
  destruct m as [added|t|t]; simpl in *; [discriminate| |];
    (destruct t as [k|[k|]]; [| |discriminate];
     apply bool_decide_eq_true in Hm; subst k; apply invalidate_unmarks).
Qed.

Lemma reported_change_is_forwarded_witness :
  let st := scannedTwoParagraphs in
  let mutations := [ChildList [AddedOther]; CharacterData (TargetOther (Some 2))] in
  existsb (reportedChange 2) mutations = true
  ∧ 2 ∈ processedElements st
  ∧ 2 ∈ (affectedElements st mutations).1
  ∧ 2 ∉ processedElements (affectedElements st mutations).2.
Proof.
  intros st mutations.
  assert (H : existsb (reportedChange 2) mutations = true) by reflexivity.
  destruct (reported_change_is_forwarded st mutations 2 H) as (H1 & H2 & _).
  split; [exact H|]. split; [|split; assumption].
  apply (bool_decide_unpack _). vm_compute. exact I.
Defined.

(** ** The scheduler *)

Lemma singleFlight_control st st' :
  control st' = control st -> singleFlight st -> singleFlight st'.
Proof.
  unfold control, singleFlight. intros Hc H.
  injection Hc as _ _ _ Hp Hf. rewrite Hp, Hf. exact H.
Qed.

Lemma processElementsBatch_singleFlight st els :
  singleFlight st -> singleFlight (processElementsBatch st els).
Proof.
  intros [Hlen Hiff]. unfold processElementsBatch.
  destruct els as [|n els]; [split; assumption|].
  destruct (isProcessing st) eqn:Hp; [split; [assumption | rewrite Hp; exact Hiff]|].
  assert (Hnil : animationFrames st = []).
  { destruct (animationFrames st) as [|b l] eqn:Hf; [reflexivity|].
    assert (Ht : false = true) by (apply Hiff; discriminate). discriminate. }
  unfold singleFlight; simpl. rewrite Hnil. simpl.
  split; [lia | split; [discriminate | reflexivity]].
Qed.

Section Scheduler.

Variable isLetter : N -> bool.

Lemma chunkLoop_frame startTime rest :
  ∀ index st, sameFrame st (chunkLoop isLetter startTime rest index st).2.
Proof.
  induction rest as [|element rest IH]; intros index st; simpl;
    [apply sameFrame_refl|].
  match goal with |- context [if ?b then _ else _] => destruct b end;
    [|repeat split].
  eapply sameFrame_trans; [|apply IH].
  destruct (isConnected _ element); [|repeat split].
  eapply sameFrame_trans; [|apply processElement_frame]. repeat split.
Qed.

(** What one run of [processChunk] does to the queue of callbacks and to
    [isProcessing]: it re-registers itself, or it clears the flag. *)
Lemma processChunk_outcome st b :
  sameFrame st (setIsProcessing
                  (setAnimationFrames (processChunk isLetter st b) (animationFrames st))
                  (isProcessing st))
  ∧ ((∃ index, (index < length (elements b))%nat
               ∧ animationFrames (processChunk isLetter st b)
                 = animationFrames st ++ [mkBatch (elements b) index]
               ∧ isProcessing (processChunk isLetter st b) = isProcessing st)
     ∨ (animationFrames (processChunk isLetter st b) = animationFrames st
        ∧ isProcessing (processChunk isLetter st b) = false)).
Proof.
  unfold processChunk.
  destruct (performanceNow st) as [startTime st1] eqn:Hnow.
  assert (H1 : sameFrame st st1)
    by (unfold performanceNow in Hnow; injection Hnow as _ <-; repeat split).
  pose proof (chunkLoop_frame startTime (drop (currentIndex b) (elements b))
                (currentIndex b) st1) as H2.
  destruct (chunkLoop isLetter startTime _ _ st1) as [index st2]; simpl in H2.
  pose proof (sameFrame_trans _ _ _ H1 H2) as (Hc & Hk & Ht & Hd).
  unfold control in Hc. injection Hc as Hcfg Htim Hen Hpr Hfr.
  destruct (index <? length (elements b))%nat eqn:Hlt.
  - split; [repeat split; simpl; try assumption; unfold control; simpl; congruence|].
    left. exists index. apply Nat.ltb_lt in Hlt. simpl.
    split; [exact Hlt|]. split; congruence.
  - split; [repeat split; simpl; try assumption; unfold control; simpl; congruence|].
    right. simpl. split; [assumption | reflexivity].
Qed.

Lemma animationFrame_singleFlight st :
  singleFlight st -> singleFlight (animationFrame isLetter st).
Proof.
  intros [Hlen Hiff]. unfold animationFrame.
  destruct (animationFrames st) as [|b [|b' l]] eqn:Hf; simpl in Hlen; [| |lia].
  - simpl. split; [simpl; lia|]. simpl. rewrite Hiff. reflexivity.
  - simpl.
    destruct (processChunk_outcome (setAnimationFrames st []) b)
      as [_ [(index & _ & Hfr & Hpr)|[Hfr Hpr]]]; simpl in *.
    + split; [rewrite Hfr; simpl; lia|].
      rewrite Hfr, Hpr. split; [discriminate|].
      intros _. apply Hiff. discriminate.
    + split; [rewrite Hfr; simpl; lia|].
      rewrite Hfr, Hpr. split; [discriminate | congruence].
Qed.

Lemma scanDOM_singleFlight st root :
  singleFlight st -> singleFlight (scanDOM st root).
Proof.
  intros H. unfold scanDOM.
  destruct (negb (isEnabled st) || isProcessing st); [exact H|].
  destruct (getTargetElements_dom st root) as [_ (Hc & _)].
  destruct (getTargetElements st root) as [els st1]; simpl in *.
  apply processElementsBatch_singleFlight, (singleFlight_control st); assumption.
Qed.

Lemma timerFires_singleFlight st :
  singleFlight st -> singleFlight (timerFires st).
Proof.
  intros H. unfold timerFires.
  destruct (debounceTimer st) as [mutations|]; [|exact H].
  rewrite processMutations_forwards.
  apply processElementsBatch_singleFlight.
  destruct (affectedElements_dom (setDebounceTimer st None) mutations) as [_ (Hc & _)].
  unfold control in *. injection Hc as _ _ _ Hp Hf.
  destruct H as [Hlen Hiff]. split; rewrite ?Hp, ?Hf; assumption.
Qed.

(** X9: as long as [disable] is not called, at most one batch is in
    flight and [isProcessing] is true exactly while one is: a scan, a rescan
    or a debounced batch that arrives meanwhile starts nothing. *)
Theorem single_flight (st : State) (evs : list Event) :
  forallb notDisable evs = true ->
  singleFlight st ->
  singleFlight (run isLetter st evs).
Proof.
  revert st. induction evs as [|ev evs IH]; intros st Hevs H; simpl; [exact H|].
  simpl in Hevs. apply andb_prop in Hevs as [Hev Hevs].
  apply IH; [exact Hevs|].
  destruct ev; simpl in *; try discriminate.
  - apply animationFrame_singleFlight, H.
  - apply timerFires_singleFlight, H.
  - unfold handleMutations.
    destruct (negb (isEnabled st) || isProcessing st); exact H.
  - apply scanDOM_singleFlight. exact H.
  - apply scanDOM_singleFlight, H.
  - exact H.
Qed.

(** X10: a disabled engine with no callback and no timeout pending is
    inert: frames, timers, observed mutations and scan requests leave its
    state, the document included, exactly as it is. *)
Theorem disabled_engine_is_inert (st : State) (evs : list Event) :
  isEnabled st = false ->
  animationFrames st = [] ->
  debounceTimer st = None ->
  forallb passiveEvent evs = true ->
  run isLetter st evs = st.
Proof.
  intros Hen Hfr Htim. induction evs as [|ev evs IH]; intros Hevs; simpl;
    [reflexivity|].
  simpl in Hevs. apply andb_prop in Hevs as [Hev Hevs].
  assert (Hstep : step isLetter st ev = st).
  { destruct ev; simpl in *; try discriminate.
    - unfold animationFrame. rewrite Hfr. simpl.
      destruct st; simpl in *. subst. reflexivity.
    - unfold timerFires. rewrite Htim. reflexivity.
    - unfold handleMutations. rewrite Hen. reflexivity.
    - unfold scanDOM. rewrite Hen. reflexivity. }
  rewrite Hstep. apply IH, Hevs.
Qed.

End Scheduler.

Lemma single_flight_witness :
  let st := newCorrector ∅ twoParagraphs slowClock in
  let evs := [Scan RDocument; MutationsObserved [CharacterData (TargetElement 1)];
              AnimationFrame; Scan RDocument; TimerFires; Enable; AnimationFrame] in
  forallb notDisable evs = true
  ∧ singleFlight st
  ∧ singleFlight (run sampleLetter st evs).
Proof.
  intros st evs.
  assert (H0 : singleFlight st).
  { split; [simpl; lia|]. simpl. split; [discriminate | congruence]. }
  split; [reflexivity|]. split; [exact H0|].
  exact (single_flight sampleLetter st evs eq_refl H0).
Defined.

Lemma disabled_engine_is_inert_witness :
  let st := disable (newCorrector ∅ twoParagraphs steadyClock) in
  let evs := [Scan RDocument; MutationsObserved [CharacterData (TargetElement 1)];
              TimerFires; AnimationFrame] in
  isEnabled st = false ∧ run sampleLetter st evs = st.
Proof.
  intros st evs. split; [reflexivity|].
  apply (disabled_engine_is_inert sampleLetter st evs); reflexivity.
Defined.

(** ** Slices and the time budget *)

Lemma elementText_styled cfg e r : elementText (styledElement cfg e r) = elementText e.
Proof.
  unfold elementText, styledElement; simpl.
  destruct (String.eqb (tagName e) "INPUT" || String.eqb (tagName e) "TEXTAREA");
    [reflexivity|].
  repeat match goal with |- context [if ?b then _ else _] => destruct b end;
    reflexivity.
Qed.

Lemma applyRTLStyles_textOf st k r n :
  textOf (dom (applyRTLStyles st k r)) n = textOf (dom st) n.
Proof.
  unfold applyRTLStyles.
  destruct (elems (dom st) !! k) as [e|] eqn:He; [|reflexivity].
  destruct (hasLtrOverride e); [reflexivity|].
  destruct (sameRatioApplied e r); [reflexivity|].
  unfold textOf; simpl. destruct (decide (k = n)) as [->|Hne].
  - rewrite lookup_insert_eq, He. simpl. rewrite elementText_styled. reflexivity.
  - rewrite lookup_insert_ne by assumption. reflexivity.
Qed.

Section Slices.

Variable isLetter : N -> bool.

Lemma processElement_textOf st k n :
  textOf (dom (processElement isLetter st k)) n = textOf (dom st) n.
Proof.
  unfold processElement.
  destruct (elems (dom st) !! k) as [e|]; [|reflexivity].
  destruct (negb (isConnected (dom st) k)); [reflexivity|].
  pose proof (getElementText_dom st k) as Hd.
  destruct (getElementText st k) as [text st1]; simpl in Hd. rewrite <- Hd.
  destruct text as [|c text]; [reflexivity|].
  destruct (length (trim (c :: text)) <? 3)%nat; [reflexivity|].
  change (dom (setProcessedElements ?s _)) with (dom s).
  repeat match goal with |- context [if ?b then _ else _] => destruct b end;
    first [apply applyRTLStyles_textOf | reflexivity].
Qed.

Lemma processElement_processed_mono st k n :
  n ∈ processedElements st -> n ∈ processedElements (processElement isLetter st k).
Proof.
  intros Hn. unfold processElement.
  destruct (elems (dom st) !! k) as [e|] eqn:He; [|exact Hn].
  destruct (negb (isConnected (dom st) k)); [exact Hn|].
  unfold getElementText. rewrite He.
  destruct (elementText e) as [|c text]; [exact Hn|].
  destruct (length (trim (c :: text)) <? 3)%nat; [exact Hn|].
  simpl. apply elem_of_union. right.
  repeat match goal with |- context [if ?b then _ else _] => destruct b end;
    try (rewrite (proj1 (proj2 (applyRTLStyles_frame _ _ _)))); exact Hn.
Qed.

Lemma processElement_marks st n t :
  textOf (dom st) n = Some t -> isConnected (dom st) n = true ->
  (3 <= length (trim t))%nat ->
  n ∈ processedElements (processElement isLetter st n).
Proof.
  intros Ht Hconn Hlen. unfold textOf in Ht. unfold processElement.
  destruct (elems (dom st) !! n) as [e|] eqn:He; [|discriminate].
  injection Ht as <-. rewrite Hconn. simpl.
  unfold getElementText. rewrite He.
  destruct (elementText e) as [|c text]; [simpl in Hlen; lia|].
  replace (length (trim (c :: text)) <? 3)%nat with false
    by (symmetry; apply Nat.ltb_ge; exact Hlen).
  simpl. apply elem_of_union. left. apply elem_of_singleton. reflexivity.
Qed.

Lemma performanceNow_reading st :
  (performanceNow st).1 = clock st (clockReads st)
  ∧ sameFrame st (performanceNow st).2
  ∧ dom (performanceNow st).2 = dom st
  ∧ processedElements (performanceNow st).2 = processedElements st
  ∧ textCache (performanceNow st).2 = textCache st
  ∧ clockReads (performanceNow st).2 = S (clockReads st).
Proof. repeat split. Qed.

Lemma chunkLoop_generous startTime rest :
  ∀ index st,
    (∀ j, (clockReads st <= j < clockReads st + length rest)%nat ->
          ltValue (clock st j - startTime) (prop (config st) "maxProcessingTime") = true) ->
    (chunkLoop isLetter startTime rest index st).1 = (index + length rest)%nat
    ∧ (∀ n, n ∈ processedElements st ->
            n ∈ processedElements (chunkLoop isLetter startTime rest index st).2)
    ∧ (∀ n t, n ∈ rest -> textOf (dom st) n = Some t ->
              isConnected (dom st) n = true -> (3 <= length (trim t))%nat ->
              n ∈ processedElements (chunkLoop isLetter startTime rest index st).2).
Proof.
  induction rest as [|element rest IH]; intros index st Hgen; simpl.
  - split; [lia|]. split; [auto|]. intros n t Hn. apply elem_of_nil in Hn. destruct Hn.
  - rewrite (Hgen (clockReads st)) by (simpl; lia).
    set (st1 := mkState _ _ _ _ _ _ _ _ _ _).
    set (st2 := if isConnected (dom st) element
                then processElement isLetter st1 element else st1).
    assert (Hf : sameFrame st st2 ∧ clockReads st2 = S (clockReads st)).
    { subst st2. destruct (isConnected (dom st) element); [|repeat split].
      destruct (processElement_frame isLetter st1 element) as [Hf Hr].
      split; [|rewrite Hr; reflexivity].
      eapply sameFrame_trans; [|exact Hf]. repeat split. }
    destruct Hf as [Hf Hreads].
    assert (Hgen2 : ∀ j, (clockReads st2 <= j < clockReads st2 + length rest)%nat ->
                         ltValue (clock st2 j - startTime)
                           (prop (config st2) "maxProcessingTime") = true).
    { destruct Hf as (Hc & Hk & _). unfold control in Hc. injection Hc as Hcfg _ _ _ _.
      intros j Hj. rewrite Hk, Hcfg. apply Hgen. simpl. lia. }
    assert (Htext : ∀ n, textOf (dom st2) n = textOf (dom st) n).
    { intros n. subst st2. destruct (isConnected (dom st) element); [|reflexivity].
      exact (processElement_textOf st1 element n). }
    assert (Hconn : ∀ n, isConnected (dom st2) n = isConnected (dom st) n).
    { intros n. unfold isConnected. destruct Hf as (_ & _ & Ht & _). rewrite Ht.
      reflexivity. }
    assert (Hmono : ∀ n, n ∈ processedElements st -> n ∈ processedElements st2).
    { intros n Hn. subst st2. destruct (isConnected (dom st) element); [|exact Hn].
      exact (processElement_processed_mono st1 element n Hn). }
    destruct (IH (S index) st2 Hgen2) as (Hidx & Hkeep & Hall).
    split; [rewrite Hidx; lia|]. split; [intros n Hn; apply Hkeep, Hmono, Hn|].
    intros n t Hn Ht Hc Hlen. apply elem_of_cons in Hn as [->|Hn].
    + apply Hkeep. subst st2.
      rewrite Hc. apply (processElement_marks st1 element t); assumption.
    + apply (Hall n t Hn); [rewrite Htext | rewrite Hconn |]; assumption.
Qed.

(** X11: when the time budget covers the slice, that is when each reading
    of the clock that the loop of the slice takes, one per remaining
    element, is less than [maxProcessingTime] after the reading taken at the
    start of the slice, one run of the slice callback finishes the batch: it
    registers no further callback, clears [isProcessing], and every
    remaining element of the batch that is connected and has at least 3 code
    units of trimmed text is marked processed.  Nothing is asked of the
    clock before or after the slice. *)
Theorem covered_slice_drains_batch (st : State) (b : Batch) :
  budgetCoversSlice st (length (drop (currentIndex b) (elements b))) ->
  animationFrames (processChunk isLetter st b) = animationFrames st
  ∧ isProcessing (processChunk isLetter st b) = false
  ∧ (∀ n t, n ∈ drop (currentIndex b) (elements b) ->
            textOf (dom st) n = Some t -> isConnected (dom st) n = true ->
            (3 <= length (trim t))%nat ->
            n ∈ processedElements (processChunk isLetter st b)).
Proof.
  intros Hgen. unfold processChunk. simpl.
  set (st1 := mkState _ _ _ _ _ _ _ _ _ _).
  assert (Hgen1 : ∀ j, (clockReads st1 <= j
                        < clockReads st1 + length (drop (currentIndex b) (elements b)))%nat ->
                       ltValue (clock st1 j - clock st (clockReads st))
                         (prop (config st1) "maxProcessingTime") = true)
    by (intros j Hj; apply Hgen; simpl in Hj; lia).
  destruct (chunkLoop_generous (clock st (clockReads st))
              (drop (currentIndex b) (elements b)) (currentIndex b) st1 Hgen1)
    as (Hidx & _ & Hall).
  pose proof (chunkLoop_frame isLetter (clock st (clockReads st))
                (drop (currentIndex b) (elements b)) (currentIndex b) st1)
    as (Hc & _).
  destruct (chunkLoop isLetter _ _ _ st1) as [index st2]; simpl in *.
  unfold control in Hc. injection Hc as _ _ _ _ Hfr.
  assert (Hdone : (index <? length (elements b))%nat = false).
  { apply Nat.ltb_ge. rewrite Hidx, length_drop. lia. }
  rewrite Hdone. simpl. split; [exact Hfr|]. split; [reflexivity|].
  intros n t Hn Ht Hconn Hlen. apply (Hall n t Hn Ht Hconn Hlen).
Qed.

Lemma processChunk_no_budget st b :
  budgetAlwaysExhausted st ->
  (currentIndex b < length (elements b))%nat ->
  processChunk isLetter st b
  = mkState (config st) (processedElements st) (textCache st) (debounceTimer st)
      (isEnabled st) (isProcessing st) (animationFrames st ++ [b]) (dom st)
      (clock st) (S (S (clockReads st))).
Proof.
  intros Hno Hlt. unfold processChunk. simpl.
  destruct (drop (currentIndex b) (elements b)) as [|element rest] eqn:Hdrop.
  - apply (f_equal length) in Hdrop. rewrite length_drop in Hdrop. simpl in Hdrop. lia.
  - simpl. rewrite (Hno (clockReads st) (S (clockReads st))) by lia. simpl.
    apply Nat.ltb_lt in Hlt. rewrite Hlt. destruct b. reflexivity.
Qed.

(** X12: when the budget is used up at once (the caller configured 0, or
    something that is no number), the engine never processes anything: frame
    after frame the batch is registered again at the same index, and the
    document, the processed set, the cache and [isProcessing] stay as they
    were, so every later scan is refused. *)
Theorem exhausted_budget_never_progresses (st : State) (b : Batch) (frames : nat) :
  budgetAlwaysExhausted st ->
  animationFrames st = [b] ->
  (currentIndex b < length (elements b))%nat ->
  let st' := Nat.iter frames (animationFrame isLetter) st in
  animationFrames st' = [b]
  ∧ isProcessing st' = isProcessing st
  ∧ dom st' = dom st
  ∧ processedElements st' = processedElements st
  ∧ textCache st' = textCache st.
Proof.
  intros Hno Hfr Hlt.
  assert (H : let st' := Nat.iter frames (animationFrame isLetter) st in
              animationFrames st' = [b] ∧ isProcessing st' = isProcessing st
              ∧ dom st' = dom st ∧ processedElements st' = processedElements st
              ∧ textCache st' = textCache st
              ∧ config st' = config st ∧ clock st' = clock st).
  { induction frames as [|k IH]; simpl; [repeat split; assumption|].
    simpl in IH. destruct IH as (A1 & A2 & A3 & A4 & A5 & A6 & A7).
    set (stk := Nat.iter k (animationFrame isLetter) st) in *.
    unfold animationFrame. rewrite A1. simpl.
    rewrite processChunk_no_budget; [simpl; repeat split; assumption| |exact Hlt].
    intros i j Hij. simpl. rewrite A6, A7. apply Hno, Hij. }
  simpl in *. tauto.
Qed.

End Slices.

(** With a clock that advances by one millisecond at each reading and the
    default budget of 16 ms, the first slice of a scan of the two paragraphs
    finishes the batch. *)
Lemma covered_slice_drains_batch_witness :
  let st := run sampleLetter (newCorrector ∅ twoParagraphs tickingClock) [Scan RDocument] in
  let b := mkBatch [1; 2] 0 in
  animationFrames st = [b]
  ∧ budgetCoversSlice st 2
  ∧ isProcessing (processChunk sampleLetter st b) = false
  ∧ 2 ∈ processedElements (processChunk sampleLetter st b).
Proof.
  intros st b.
  assert (Hgen : budgetCoversSlice st 2).
  { intros j Hj. change (clockReads st) with 0%nat in *.
    assert (Hcase : j = 1%nat ∨ j = 2%nat) by lia.
    destruct Hcase as [->| ->]; vm_compute; reflexivity. }
  destruct (covered_slice_drains_batch sampleLetter st b Hgen) as (_ & Hp & Hall).
  split; [vm_compute; reflexivity|]. split; [exact Hgen|]. split; [exact Hp|].
  apply (Hall 2 arabicWord).
  - apply (bool_decide_unpack _). vm_compute. exact I.
  - vm_compute. reflexivity.
  - vm_compute. reflexivity.
  - vm_compute. lia.
Defined.

Lemma exhausted_budget_never_progresses_witness :
  let st := zeroBudget in
  let b := mkBatch [1; 2] 0 in
  prop (config st) "maxProcessingTime" = VNum 0
  ∧ animationFrames st = [b]
  ∧ dom (Nat.iter 5 (animationFrame sampleLetter) st) = dom st
  ∧ processedElements (Nat.iter 5 (animationFrame sampleLetter) st) = ∅.
Proof.
  intros st b.
  assert (Hno : budgetAlwaysExhausted st) by (intros i j _; vm_compute; reflexivity).
  assert (Hfr : animationFrames st = [b]) by (vm_compute; reflexivity).
  assert (Hlt : (currentIndex b < length (elements b))%nat) by (simpl; lia).
  destruct (exhausted_budget_never_progresses sampleLetter st b 5 Hno Hfr Hlt)
    as (_ & _ & Hd & Hp & _).
  split; [vm_compute; reflexivity|]. split; [exact Hfr|]. split; [exact Hd|].
  rewrite Hp. vm_compute. reflexivity.
Defined.

(** ** The footprint of the engine on the document *)









(** ** Styling persists *)

Lemma applyRTLStyles_styled st k r n :
  styled (dom st) n = true -> styled (dom (applyRTLStyles st k r)) n = true.
Proof.
  intros Hn. unfold applyRTLStyles.
  destruct (elems (dom st) !! k) as [e|] eqn:He; [|exact Hn].
  destruct (hasLtrOverride e); [exact Hn|].
  destruct (sameRatioApplied e r); [exact Hn|].
  destruct (decide (k = n)) as [->|Hne].
  - rewrite styled_setElement, styledElement_marker.
    apply bool_decide_eq_true. reflexivity.
  - unfold styled, attributeOf, setElement in *; simpl.
    rewrite lookup_insert_ne by assumption. exact Hn.
Qed.

Section StylingPersists.

Variable isLetter : N -> bool.
Variable n : node.

Lemma processElement_styled st k :
  styled (dom st) n = true -> styled (dom (processElement isLetter st k)) n = true.
Proof.
  intros Hn. unfold processElement.
  destruct (elems (dom st) !! k) as [e|]; [|exact Hn].
  destruct (negb (isConnected (dom st) k)); [exact Hn|].
  pose proof (getElementText_dom st k) as Hd.
  destruct (getElementText st k) as [text st1]; simpl in Hd. rewrite <- Hd in Hn.
  destruct text as [|c text]; [exact Hn|].
  destruct (length (trim (c :: text)) <? 3)%nat; [exact Hn|].
  change (dom (setProcessedElements ?s _)) with (dom s).
  repeat match goal with |- context [if ?b then _ else _] => destruct b end;
    first [apply applyRTLStyles_styled; exact Hn | exact Hn].
Qed.

Lemma chunkLoop_styled startTime rest :
  ∀ index st, styled (dom st) n = true ->
              styled (dom (chunkLoop isLetter startTime rest index st).2) n = true.
Proof.
  induction rest as [|element rest IH]; intros index st Hn; simpl; [exact Hn|].
  match goal with |- context [if ?b then _ else _] => destruct b end; [|exact Hn].
  apply IH. destruct (isConnected (dom st) element); [|exact Hn].
  apply processElement_styled. exact Hn.
Qed.

Lemma processChunk_styled st b :
  styled (dom st) n = true -> styled (dom (processChunk isLetter st b)) n = true.
Proof.
  intros Hn. unfold processChunk. simpl.
  match goal with |- context [chunkLoop isLetter ?t ?r ?i ?s] =>
    pose proof (chunkLoop_styled t r i s Hn) as H;
    destruct (chunkLoop isLetter t r i s) as [index st2] end.
  simpl in H. destruct (index <? length (elements b))%nat; exact H.
Qed.

Lemma processElementsBatch_dom st els : dom (processElementsBatch st els) = dom st.
Proof.
  unfold processElementsBatch. destruct els; [reflexivity|].
  destruct (isProcessing st); reflexivity.
Qed.

Lemma scanDOM_dom st root : dom (scanDOM st root) = dom st.
Proof.
  unfold scanDOM. destruct (negb (isEnabled st) || isProcessing st); [reflexivity|].
  pose proof (proj1 (getTargetElements_dom st root)) as Hd.
  destruct (getTargetElements st root) as [els st1]; simpl in Hd.
  rewrite processElementsBatch_dom. exact Hd.
Qed.

Lemma timerFires_dom st : dom (timerFires st) = dom st.
Proof.
  unfold timerFires. destruct (debounceTimer st) as [mutations|]; [|reflexivity].
  rewrite processMutations_forwards, processElementsBatch_dom.
  apply (proj1 (affectedElements_dom (setDebounceTimer st None) mutations)).
Qed.

(** X14: the engine never removes styling on its own: a node that carries
    the marker still carries it after any sequence of scans, frames, timers,
    observed mutations and enable commands, whatever its text has become;
    only [disable] takes the marker away. *)
Theorem styling_persists (st : State) (evs : list Event) :
  forallb keepsStyling evs = true ->
  styled (dom st) n = true ->
  styled (dom (run isLetter st evs)) n = true.
Proof.
  revert st. induction evs as [|ev evs IH]; intros st Hevs Hn; simpl; [exact Hn|].
  simpl in Hevs. apply andb_prop in Hevs as [Hev Hevs].
  apply IH; [exact Hevs|].
  destruct ev; simpl in *; try discriminate.
  - unfold animationFrame.
    assert (H0 : styled (dom (setAnimationFrames st [])) n = true) by exact Hn.
    revert H0. generalize (setAnimationFrames st []) as s.
    induction (animationFrames st) as [|b l IHl]; intros s Hs; simpl; [exact Hs|].
    apply IHl, processChunk_styled, Hs.
  - rewrite timerFires_dom. exact Hn.
  - unfold handleMutations.
    destruct (negb (isEnabled st) || isProcessing st); exact Hn.
  - unfold enable. rewrite scanDOM_dom. exact Hn.
  - rewrite scanDOM_dom. exact Hn.
Qed.

End StylingPersists.

Lemma styling_persists_witness :
  let st := scannedTwoParagraphs in
  let evs := [PageChange (setTextOf 1 (js "plain latin text"))] in
  let st' := run sampleLetter st evs in
  let evs' := [MutationsObserved [CharacterData (TargetElement 1)]; TimerFires;
               AnimationFrame; Scan RDocument; AnimationFrame] in
  styled (dom st') 1 = true
  ∧ textOf (dom st') 1 = Some (js "plain latin text")
  ∧ styled (dom (run sampleLetter st' evs')) 1 = true.
Proof.
  intros st evs st' evs'.
  assert (H : styled (dom st') 1 = true) by (vm_compute; reflexivity).
  split; [exact H|]. split; [vm_compute; reflexivity|].
  exact (styling_persists sampleLetter 1 st' evs' eq_refl H).
Defined.

(** ** What [disable] and [destroy] leave behind *)




Lemma rtlElements_have_records d n :
  n ∈ rtlElements d -> is_Some (elems d !! n).
Proof.
  unfold rtlElements, querySelectorAll.
  rewrite list_elem_of_In, filter_In. intros [_ H].
  destruct (elems d !! n); [eexists; reflexivity | discriminate].
Qed.

Lemma histogramTotal_insert (types : gmap string Count) (tag : string) (c : Count) :
  (histogramTotal (<[tag := c]> types) + from_option countOf 0 (types !! tag)
   = countOf c + histogramTotal types)%nat.
Proof.
  unfold histogramTotal.
  assert (Hcomm : ∀ (m : gmap string Count) (j1 j2 : string) (z1 z2 : Count) (y : nat),
            j1 ≠ j2 -> m !! j1 = Some z1 -> m !! j2 = Some z2 ->
            (countOf z1 + (countOf z2 + y) = countOf z2 + (countOf z1 + y))%nat)
    by (intros; lia).
  destruct (types !! tag) as [c0|] eqn:Hc; simpl.
  - rewrite <- (insert_delete_eq types).
    rewrite (map_fold_insert_L _ _ tag c (delete tag types));
      [|apply Hcomm | apply lookup_delete_eq].
    rewrite (map_fold_delete_L _ 0%nat tag c0 types); [lia | apply Hcomm | exact Hc].
  - rewrite (map_fold_insert_L _ _ tag c types); [lia | apply Hcomm | exact Hc].
Qed.

(** A step on an element whose lower-case tag is no inherited key adds one
    to the sum, and puts no string into a histogram that holds none. *)
Lemma countType_counts lowerCase d (types : gmap string Count) n e :
  elems d !! n = Some e ->
  existsb (String.eqb (lowerCase (tagName e))) inheritedKeys = false ->
  (∀ k, types !! k ≠ Some Garbled) ->
  (∀ k, countType lowerCase d types n !! k ≠ Some Garbled)
  ∧ histogramTotal (countType lowerCase d types n) = S (histogramTotal types).
Proof.
  intros He Hkey Hclean. unfold countType. rewrite He. cbn zeta.
  set (tag := lowerCase (tagName e)) in *.
  assert (Hproto : String.eqb tag "__proto__" = false).
  { destruct (String.eqb_spec tag "__proto__") as [Heq|]; [|reflexivity].
    rewrite Heq in Hkey. discriminate. }
  pose proof (Hclean tag) as Htag.
  destruct (types !! tag) as [[c|]|] eqn:Hc; [| congruence |rewrite Hproto, Hkey].
  - split.
    + intros k. destruct (decide (tag = k)) as [<-|Hne];
        [rewrite lookup_insert_eq; discriminate
        | rewrite lookup_insert_ne by exact Hne; apply Hclean].
    + pose proof (histogramTotal_insert types tag (Counted (S c))) as H.
      rewrite Hc in H. simpl in H. lia.
  - split.
    + intros k. destruct (decide (tag = k)) as [<-|Hne];
        [rewrite lookup_insert_eq; discriminate
        | rewrite lookup_insert_ne by exact Hne; apply Hclean].
    + pose proof (histogramTotal_insert types tag (Counted 1)) as H.
      rewrite Hc in H. simpl in H. lia.
Qed.

Lemma histogramTotal_fold lowerCase d l :
  ∀ types,
    (∀ n, n ∈ l -> ∃ e, elems d !! n = Some e
                        ∧ existsb (String.eqb (lowerCase (tagName e))) inheritedKeys = false) ->
    (∀ k, types !! k ≠ Some Garbled) ->
    histogramTotal (fold_left (countType lowerCase d) l types)
    = (length l + histogramTotal types)%nat.
Proof.
  induction l as [|n l IH]; intros types Hl Hclean; simpl; [reflexivity|].
  destruct (Hl n (list_elem_of_here _ _)) as (e & He & Hkey).
  destruct (countType_counts lowerCase d types n e He Hkey Hclean) as [Hclean' Hsum].
  rewrite IH; [rewrite Hsum; lia | intros k Hk; apply Hl; right; exact Hk | exact Hclean'].
Qed.

Lemma rtlElements_after_disable st : rtlElements (dom (disable st)) = [].
Proof.
  unfold rtlElements, querySelectorAll.
  destruct (List.filter _ _) as [|n l] eqn:Hf; [reflexivity|].
  assert (Hn : In n (List.filter
              (fun n => match elems (dom (disable st)) !! n with
                        | Some e => existsb (matches e) [[SAttr "data-rtl-applied" "true"]]
                        | None => false
                        end)
              (descendantsOf (dom (disable st)) RDocument)))
    by (rewrite Hf; left; reflexivity).
  apply list_elem_of_In in Hn.
  change (n ∈ querySelectorAll (dom (disable st)) RDocument
                [[SAttr "data-rtl-applied" "true"]]) in Hn.
  apply elem_of_marked_query in Hn as [Hdoc Hst].
  assert (Htree : documentTree (dom (disable st)) = documentTree (dom st)).
  { unfold disable.
    apply (removeAllRTLStyles_fields
             (setDebounceTimer (setIsProcessing (setIsEnabled st false) false) None)). }
  rewrite Htree in Hdoc.
  rewrite (proj1 (disable_clears_styled_nodes st n Hdoc)) in Hst. discriminate.
Qed.

(** X16: the statistics agree with each other and with [disable].  When
    no styled element of the document has a tag whose lower-case form is
    the name of a property that a plain object inherits, the counts of the
    histogram by tag add up to [totalProcessed]; and right after [disable]
    both report nothing, whatever the tags. *)
Theorem stats_consistent (lowerCase : string -> string) (st : State) :
  ((∀ n e, n ∈ rtlElements (dom st) -> elems (dom st) !! n = Some e ->
           lowerCase (tagName e) ∉ inheritedKeys) ->
   histogramTotal (elementTypes lowerCase st) = totalProcessed st)
  ∧ totalProcessed (disable st) = 0%nat
  ∧ elementTypes lowerCase (disable st) = ∅.
Proof.
  pose proof (rtlElements_after_disable st) as Hnone.
  split; [|split].
  - intros Hkeys. unfold elementTypes, totalProcessed.
    rewrite histogramTotal_fold.
    + unfold histogramTotal. rewrite map_fold_empty. lia.
    + intros n Hn. destruct (rtlElements_have_records _ _ Hn) as [e He].
      exists e. split; [exact He|].
      apply not_true_iff_false. intros Hex. apply existsb_exists in Hex as (k & Hk & Heq).
      apply String.eqb_eq in Heq. apply (Hkeys n e Hn He).
      rewrite Heq. apply list_elem_of_In, Hk.
    + intros k. rewrite lookup_empty. discriminate.
  - unfold totalProcessed. rewrite Hnone. reflexivity.
  - unfold elementTypes. rewrite Hnone. reflexivity.
Qed.

(** After a scan of the two paragraphs the histogram counts two [p]; on the
    page with a styled element of tag [constructor] the one styled element
    is not counted: its entry is a string. *)
Lemma stats_consistent_witness :
  (elementTypes toLowerCase scannedTwoParagraphs !! "p"%string = Some (Counted 2)
   ∧ histogramTotal (elementTypes toLowerCase scannedTwoParagraphs) = 2%nat
   ∧ totalProcessed scannedTwoParagraphs = 2%nat)
  ∧ (elementTypes toLowerCase constructorPage !! "constructor"%string = Some Garbled
     ∧ histogramTotal (elementTypes toLowerCase constructorPage) = 0%nat
     ∧ totalProcessed constructorPage = 1%nat).
Proof.
  assert (Htotal : totalProcessed scannedTwoParagraphs = 2%nat)
    by (vm_compute; reflexivity).
  split; [split; [vm_compute; reflexivity|split; [|exact Htotal]]
         |repeat split; vm_compute; reflexivity].
  rewrite <- Htotal.
  apply (proj1 (stats_consistent toLowerCase scannedTwoParagraphs)).
  intros n e Hn He.
  assert (Hl : rtlElements (dom scannedTwoParagraphs) = [1; 2]%nat)
    by (vm_compute; reflexivity).
  rewrite Hl in Hn.
  assert (Htag : tagName e = "P"%string).
  { apply elem_of_cons in Hn as [->|Hn];
      [|apply list_elem_of_singleton in Hn as ->];
      vm_compute in He; injection He as <-; reflexivity. }
  rewrite Htag. apply (bool_decide_unpack _). vm_compute. exact I.
Defined.

(** X17: [destroy] leaves an engine that is disabled, with no timeout,
    an empty processed set and an empty cache, on a document in which no node
    is styled; the slice callbacks registered before are still registered. *)
Theorem destroy_outcome (st : State) :
  isEnabled (destroy st) = false
  ∧ isProcessing (destroy st) = false
  ∧ debounceTimer (destroy st) = None
  ∧ processedElements (destroy st) = ∅
  ∧ textCache (destroy st) = ∅
  ∧ animationFrames (destroy st) = animationFrames st
  ∧ rtlElements (dom (destroy st)) = []
  ∧ totalProcessed (destroy st) = 0%nat.
Proof.
  destruct (disable_flags st) as (H1 & H2 & H3 & H4).
  pose proof (rtlElements_after_disable st) as Hnone.
  unfold destroy. simpl. repeat split; try assumption.
  unfold totalProcessed. simpl. rewrite Hnone. reflexivity.
Qed.

(** ** The processed set and the cache stay in step *)

Lemma cacheCoversProcessed_sameMarks st st' :
  sameMarks st st' -> cacheCoversProcessed st -> cacheCoversProcessed st'.
Proof.
  intros [Hp Hc] H n Hn. rewrite Hp in Hn. apply Hc, H, Hn.
Qed.

Lemma cacheCoversProcessed_fields st st' :
  processedElements st' = processedElements st -> textCache st' = textCache st ->
  cacheCoversProcessed st -> cacheCoversProcessed st'.
Proof. intros Hp Hc H n Hn. rewrite Hp in Hn. rewrite Hc. apply H, Hn. Qed.

Lemma cacheCoversProcessed_remove st k :
  cacheCoversProcessed st -> cacheCoversProcessed (removeRTLStyles st k).
Proof.
  intros H. unfold removeRTLStyles.
  destruct (elems (dom st) !! k) as [e|]; [|exact H].
  intros n Hn. simpl in *. apply elem_of_difference in Hn as [Hn Hne].
  rewrite elem_of_singleton in Hne.
  rewrite lookup_delete_ne by congruence. apply H, Hn.
Qed.

Section CacheInvariant.

Variable isLetter : N -> bool.

Lemma cacheCoversProcessed_processElement st k :
  cacheCoversProcessed st -> cacheCoversProcessed (processElement isLetter st k).
Proof.
  intros H. unfold processElement.
  destruct (elems (dom st) !! k) as [e|] eqn:He; [|exact H].
  destruct (negb (isConnected (dom st) k)); [exact H|].
  unfold getElementText. rewrite He.
  set (st1 := setTextCache st (<[k := elementText e]> (textCache st))).
  assert (H1 : cacheCoversProcessed st1).
  { intros n Hn. simpl. destruct (decide (k = n)) as [->|Hne].
    - rewrite lookup_insert_eq. eexists; reflexivity.
    - rewrite lookup_insert_ne by assumption. apply H, Hn. }
  assert (Hk : is_Some (textCache st1 !! k))
    by (simpl; rewrite lookup_insert_eq; eexists; reflexivity).
  destruct (elementText e) as [|c text] eqn:Ht; [exact H1|].
  destruct (length (trim (c :: text)) <? 3)%nat; [exact H1|].
  assert (Hadd : ∀ s, processedElements s = processedElements st1 ->
                      textCache s = textCache st1 ->
                      cacheCoversProcessed
                        (setProcessedElements s ({[k]} ∪ processedElements s))).
  { intros s Hp Hc n Hn. simpl in *. rewrite Hc.
    apply elem_of_union in Hn as [Hn|Hn].
    - apply elem_of_singleton in Hn. subst n. exact Hk.
    - rewrite Hp in Hn. apply H1, Hn. }
  repeat match goal with |- context [if ?b then _ else _] => destruct b end;
    apply Hadd; try reflexivity; apply applyRTLStyles_frame.
Qed.

Lemma cacheCoversProcessed_chunkLoop startTime rest :
  ∀ index st, cacheCoversProcessed st ->
              cacheCoversProcessed (chunkLoop isLetter startTime rest index st).2.
Proof.
  induction rest as [|element rest IH]; intros index st H; simpl; [exact H|].
  match goal with |- context [if ?b then _ else _] => destruct b end; [|exact H].
  apply IH. destruct (isConnected (dom st) element); [|exact H].
  apply cacheCoversProcessed_processElement. exact H.
Qed.

Lemma cacheCoversProcessed_processChunk st b :
  cacheCoversProcessed st -> cacheCoversProcessed (processChunk isLetter st b).
Proof.
  intros H. unfold processChunk. simpl.
  match goal with |- context [chunkLoop isLetter ?t ?r ?i ?s] =>
    pose proof (cacheCoversProcessed_chunkLoop t r i s H) as H1;
    destruct (chunkLoop isLetter t r i s) as [index st2] end.
  simpl in H1. destruct (index <? length (elements b))%nat; exact H1.
Qed.

Lemma cacheCoversProcessed_batch st els :
  cacheCoversProcessed st -> cacheCoversProcessed (processElementsBatch st els).
Proof.
  intros H. unfold processElementsBatch. destruct els; [exact H|].
  destruct (isProcessing st); exact H.
Qed.

Lemma cacheCoversProcessed_scanDOM st root :
  cacheCoversProcessed st -> cacheCoversProcessed (scanDOM st root).
Proof.
  intros H. unfold scanDOM.
  destruct (negb (isEnabled st) || isProcessing st); [exact H|].
  pose proof (proj1 (getTargetElements_spec st root)) as Hs.
  destruct (getTargetElements st root) as [els st1]; simpl in Hs.
  apply cacheCoversProcessed_batch, (cacheCoversProcessed_sameMarks st); assumption.
Qed.

Lemma cacheCoversProcessed_processMutation acc m :
  cacheCoversProcessed acc.2 -> cacheCoversProcessed (processMutation acc m).2.
Proof.
  assert (Hinv : ∀ acc k, cacheCoversProcessed acc.2 ->
                          cacheCoversProcessed (invalidate acc k).2).
  { intros [s st] k H n Hn; simpl in *.
    apply elem_of_difference in Hn as [Hn Hne]. rewrite elem_of_singleton in Hne.
    rewrite lookup_delete_ne by congruence. apply H, Hn. }
  destruct m as [added|t|t]; simpl;
    [| destruct t as [k|[k|]]; auto | destruct t as [k|[k|]]; auto].
  revert acc. induction added as [|a added IH]; intros acc H; simpl; [exact H|].
  apply IH. destruct a as [k|]; [|exact H].
  destruct acc as [s st]; simpl in H.
  pose proof (proj1 (getTargetElements_spec st (RElement k))) as Hs.
  destruct (getTargetElements st (RElement k)) as [children st1]; simpl in *.
  apply (cacheCoversProcessed_sameMarks st); assumption.
Qed.

Lemma cacheCoversProcessed_timerFires st :
  cacheCoversProcessed st -> cacheCoversProcessed (timerFires st).
Proof.
  intros H. unfold timerFires.
  destruct (debounceTimer st) as [mutations|]; [|exact H].
  rewrite processMutations_forwards. apply cacheCoversProcessed_batch.
  unfold affectedElements.
  assert (H0 : cacheCoversProcessed (([] : list node, setDebounceTimer st None)).2)
    by exact H.
  revert H0. generalize ([] : list node, setDebounceTimer st None) as acc.
  induction mutations as [|m mutations IH]; intros acc Hacc; simpl; [exact Hacc|].
  apply IH, cacheCoversProcessed_processMutation, Hacc.
Qed.

Lemma cacheCoversProcessed_fold_remove l :
  ∀ st, cacheCoversProcessed st ->
        cacheCoversProcessed (fold_left removeRTLStyles l st).
Proof.
  induction l as [|k l IH]; intros st H; simpl; [exact H|].
  apply IH, cacheCoversProcessed_remove, H.
Qed.

Lemma cacheCoversProcessed_disable st :
  cacheCoversProcessed st -> cacheCoversProcessed (disable st).
Proof.
  intros H. unfold disable, removeAllRTLStyles.
  apply cacheCoversProcessed_fold_remove. exact H.
Qed.

(** X18: the processed set and the text cache stay in step: if every
    node marked as processed has a cached text, this is still so after any
    sequence of events, page edits and [disable] included.  It holds of a new
    engine, whose set and cache are empty. *)
Theorem processed_nodes_are_cached (st : State) (evs : list Event) :
  cacheCoversProcessed st ->
  cacheCoversProcessed (run isLetter st evs).
Proof.
  revert st. induction evs as [|ev evs IH]; intros st H; simpl; [exact H|].
  apply IH. destruct ev; simpl.
  - unfold animationFrame.
    assert (H0 : cacheCoversProcessed (setAnimationFrames st [])) by exact H.
    revert H0. generalize (setAnimationFrames st []) as s.
    induction (animationFrames st) as [|b l IHl]; intros s Hs; simpl; [exact Hs|].
    apply IHl, cacheCoversProcessed_processChunk, Hs.
  - apply cacheCoversProcessed_timerFires, H.
  - unfold handleMutations.
    destruct (negb (isEnabled st) || isProcessing st); exact H.
  - apply cacheCoversProcessed_scanDOM. exact H.
  - apply cacheCoversProcessed_disable, H.
  - apply cacheCoversProcessed_scanDOM, H.
  - exact H.
Qed.

End CacheInvariant.

Lemma processed_nodes_are_cached_witness :
  let st := newCorrector ∅ twoParagraphs slowClock in
  let evs := [Scan RDocument; AnimationFrame; Disable; AnimationFrame;
              MutationsObserved [CharacterData (TargetElement 2)]; TimerFires] in
  cacheCoversProcessed st
  ∧ 2 ∈ processedElements (run sampleLetter st evs)
  ∧ is_Some (textCache (run sampleLetter st evs) !! 2).
Proof.
  intros st evs.
  assert (H0 : cacheCoversProcessed st).
  { intros n Hn. apply elem_of_empty in Hn. destruct Hn. }
  assert (H2 : 2 ∈ processedElements (run sampleLetter st evs))
    by (apply (bool_decide_unpack _); vm_compute; exact I).
  split; [exact H0|]. split; [exact H2|].
  exact (processed_nodes_are_cached sampleLetter st evs H0 2 H2).
Defined.
